(** * NCP_OCR: reconstruction of Markdown from OCR fragments (app.py)

    A shallow embedding of the three loops of [ClovaOCRProcessor._extract_text]
    (the Line Grouper, the Paragraph Assembler and the Markdown Emitter), of
    their inline copy inside [call_naver_ocr_image], and of the page loop of
    [process_pdf].

    Conventions of the embedding.
    - A Python [str] is the list of its Unicode code points ([len] counts code
      points, not bytes).
    - Pixel coordinates are integers ([Z]).  The one floating-point operation
      of the source, [y_diff > line_height * 1.5], is on such integers and is
      written exactly as [3 * line_height < 2 * y_diff].  This is what Python
      computes as long as [3 * line_height < 2 ^ 53]: the product is then
      exact and the comparison of an integer with a float is exact.  Beyond
      that range Python rounds the product, and past the range of a float it
      raises OverflowError; the embedding does not follow it there, and the
      statements that say what a page returns are made for pages within the
      range ([exact_line_height]).
    - Every operation of the source that can raise returns a [result]; a
      Python local that may be unbound is an [option]. *)

From Stdlib Require Import String Ascii.
From Stdlib Require Import List ZArith NArith Bool Lia.
Import ListNotations.

(** ** Python exceptions and results *)

Inductive exn : Type :=
| ValueError          (* max() / min() of an empty sequence *)
| TypeError           (* arithmetic on None, len(None) *)
| IndexError          (* sequence index out of range *)
| UnboundLocalError.  (* a local read before any assignment *)

Inductive result (A : Type) : Type :=
| Ok (a : A)
| Raise (e : exn).

Arguments Ok {A} a.
Arguments Raise {A} e.

Definition bind {A B : Type} (r : result A) (k : A -> result B) : result B :=
  match r with
  | Ok a => k a
  | Raise e => Raise e
  end.

Notation "x <- r ;; k" := (bind r (fun x => k))
  (at level 61, r at next level, right associativity).

(** A [for] loop whose body may raise: the state is threaded through the
    elements in order and the first exception stops the loop. *)
Fixpoint for_each {S A : Type} (body : S -> A -> result S) (l : list A) (s : S)
  : result S :=
  match l with
  | [] => Ok s
  | a :: l' => s' <- body s a ;; for_each body l' s'
  end.

(** [enumerate(l)] *)
Definition enumerate {A : Type} (l : list A) : list (nat * A) :=
  combine (seq 0 (length l)) l.

(** [l[i]] for a non-negative index. *)
Definition index {A : Type} (l : list A) (i : nat) : result A :=
  match nth_error l i with
  | Some a => Ok a
  | None => Raise IndexError
  end.

(** [d.get(key, default)] on an optional key. *)
Definition get {A : Type} (o : option A) (default : A) : A :=
  match o with
  | Some a => a
  | None => default
  end.

(** Truth value of a sequence: non-empty. *)
Definition truthy {A : Type} (l : list A) : bool :=
  match l with
  | [] => false
  | _ :: _ => true
  end.

(** ** Python strings *)

(** A character is its code point; a string is the list of its characters. *)
Abbreviation char := N (only parsing).
Abbreviation str := (list N) (only parsing).

(** An ASCII literal of the source as code points. *)
Definition lit (s : string) : str :=
  List.map N_of_ascii (list_ascii_of_string s).

Definition NL : str := [10%N].          (* "\n" *)
Definition TAB : char := 9%N.            (* "\t" *)
Definition BAR : char := 124%N.          (* "|" *)
Definition SPACE : str := [32%N].        (* ' ' *)

(** [str.isspace] on one code point: the white space that [strip] removes. *)
Definition isspace (c : char) : bool :=
  ((9 <=? c) && (c <=? 13) || (28 <=? c) && (c <=? 32)
   || (c =? 133) || (c =? 160) || (c =? 5760)
   || (8192 <=? c) && (c <=? 8202)
   || (c =? 8232) || (c =? 8233) || (c =? 8239) || (c =? 8287)
   || (c =? 12288))%N.

Fixpoint lstrip (s : str) : str :=
  match s with
  | [] => []
  | c :: s' => if isspace c then lstrip s' else s
  end.

Definition rstrip (s : str) : str := rev (lstrip (rev s)).

Definition strip (s : str) : str := rstrip (lstrip s).

Fixpoint startswith (s prefix : str) : bool :=
  match prefix, s with
  | [], _ => true
  | _ :: _, [] => false
  | p :: prefix', c :: s' => (c =? p)%N && startswith s' prefix'
  end.

Definition endswith (s suffix : str) : bool :=
  startswith (rev s) (rev suffix).

(** [s.endswith(tuple)] *)
Definition endswith_any (s : str) (suffixes : list str) : bool :=
  existsb (endswith s) suffixes.

(** [c in s] for a one-character [c]. *)
Definition contains (c : char) (s : str) : bool :=
  existsb (N.eqb c) s.

(** [s.split(sep)] for a one-character separator. *)
Fixpoint split (sep : char) (s : str) : list str :=
  match s with
  | [] => [[]]
  | c :: s' =>
      if (c =? sep)%N then [] :: split sep s'
      else match split sep s' with
           | cell :: cells => (c :: cell) :: cells
           | [] => [[c]]
           end
  end.

(** [sep.join(l)] *)
Fixpoint join (sep : str) (l : list str) : str :=
  match l with
  | [] => []
  | x :: l' =>
      match l' with
      | [] => x
      | _ :: _ => x ++ sep ++ join sep l'
      end
  end.

(** [str(n)] for a natural number. *)
Fixpoint digits (u : Decimal.uint) : str :=
  match u with
  | Decimal.Nil => []
  | Decimal.D0 u => 48%N :: digits u
  | Decimal.D1 u => 49%N :: digits u
  | Decimal.D2 u => 50%N :: digits u
  | Decimal.D3 u => 51%N :: digits u
  | Decimal.D4 u => 52%N :: digits u
  | Decimal.D5 u => 53%N :: digits u
  | Decimal.D6 u => 54%N :: digits u
  | Decimal.D7 u => 55%N :: digits u
  | Decimal.D8 u => 56%N :: digits u
  | Decimal.D9 u => 57%N :: digits u
  end.

Definition str_of_nat (n : nat) : str := digits (Nat.to_uint n).

(** [max(l)] and [min(l)] on integers; both raise on an empty list. *)
Definition py_max (l : list Z) : result Z :=
  match l with
  | [] => Raise ValueError
  | x :: l' => Ok (fold_left Z.max l' x)
  end.

Definition py_min (l : list Z) : result Z :=
  match l with
  | [] => Raise ValueError
  | x :: l' => Ok (fold_left Z.min l' x)
  end.

(** ** Data model: the OCR reply *)

(** A vertex is a JSON object whose ['x'] and ['y'] keys may be missing. *)
Record vertex : Type := { vx : option Z; vy : option Z }.

(** ['boundingPoly']: an object whose ['vertices'] key may be missing. *)
Record poly : Type := { vertices : option (list vertex) }.

(** One element of ['fields']. *)
Record field : Type := {
  inferText : option str;
  boundingPoly : option poly
}.

(** ['title'] of an image result. *)
Record title_field : Type := { title_inferText : option str }.

(** One element of ['images']. *)
Record image_result : Type := {
  fields : option (list field);
  title : option title_field
}.

(** The parsed reply of the OCR service. *)
Record ocr_result : Type := { images : option (list image_result) }.

(** ** Line Grouper (app.py 91-166 and 265-331) *)

Local Open Scope Z_scope.

Definition y_threshold : Z := 10.
Definition x_gap_threshold : Z := 50.

(** [a > b * 1.5] on integers; it is what Python computes when
    [3 * b < 2 ^ 53]. *)
Definition gt_times_1_5 (a b : Z) : bool := 3 * b <? 2 * a.

Record gstate : Type := {
  lines : list str;
  current_line : list str;
  last_y : option Z;
  last_x_end : option Z;
  line_height : option Z
}.

Definition ginit : gstate :=
  {| lines := []; current_line := []; last_y := None; last_x_end := None;
     line_height := None |}.

(** The derived box of a non-empty vertex list. *)
Record box : Type := {
  width : Z;
  height : Z;
  current_y : Z;
  current_x_start : Z;
  current_x_end : Z
}.

Definition box_of (vs : list vertex) : result box :=
  let x_coords := List.map (fun v => get (vx v) 0) vs in
  let y_coords := List.map (fun v => get (vy v) 0) vs in
  max_x <- py_max x_coords ;;
  min_x <- py_min x_coords ;;
  max_y <- py_max y_coords ;;
  min_y <- py_min y_coords ;;
  Ok {| width := max_x - min_x;
        height := max_y - min_y;
        current_y := min_y;
        current_x_start := min_x;
        current_x_end := max_x |}.

(** [field.get('boundingPoly', {}).get('vertices', [])] *)
Definition field_vertices (f : field) : list vertex :=
  get (vertices (get (boundingPoly f) {| vertices := None |})) [].

(** [field.get('inferText', '')] *)
Definition field_text (f : field) : str := get (inferText f) [].

(** The pair [(new_line, new_paragraph)] decided for a kept fragment
    (app.py 130-146). *)
Definition break_flags (st : gstate) (b : box) : result (bool * bool) :=
  match last_y st with
  | None => Ok (false, false)
  | Some ly =>
      let y_diff := Z.abs (current_y b - ly) in
      if y_threshold <? y_diff then
        match line_height st with
        | None => Raise TypeError
        | Some lh => Ok (true, gt_times_1_5 y_diff lh)
        end
      else
        match last_x_end st with
        | None => Ok (false, false)
        | Some lx => Ok (x_gap_threshold <? current_x_start b - lx, false)
        end
  end.

(** [if current_line: lines.append(' '.join(current_line)); current_line = []] *)
Definition flush (ls cur : list str) : list str * list str :=
  match cur with
  | [] => (ls, [])
  | _ :: _ => (ls ++ [join SPACE cur], [])
  end.

(** [if line_height is None: line_height = height] (app.py 118-119). *)
Definition fix_line_height (st : gstate) (b : box) : gstate :=
  {| lines := lines st; current_line := current_line st;
     last_y := last_y st; last_x_end := last_x_end st;
     line_height := match line_height st with
                    | None => Some (height b)
                    | Some h => Some h
                    end |}.

(** One iteration of [for field in fields] (app.py 103-162). *)
Definition group_step (st : gstate) (f : field) : result gstate :=
  let text := field_text f in
  let vs := field_vertices f in
  if truthy vs && (0 <? Z.of_nat (length vs)) then
    b <- box_of vs ;;
    let st := fix_line_height st b in
    if width b <? height b then Ok st
    else
      flags <- break_flags st b ;;
      let '(new_line, new_paragraph) := flags in
      let '(ls, cur) :=
        if new_line then
          let '(ls, cur) := flush (lines st) (current_line st) in
          (if new_paragraph then ls ++ [[]] else ls, cur)
        else (lines st, current_line st) in
      Ok {| lines := ls; current_line := cur ++ [text];
            last_y := Some (current_y b);
            last_x_end := Some (current_x_end b);
            line_height := line_height st |}
  else
    Ok {| lines := lines st; current_line := current_line st ++ [text];
          last_y := last_y st; last_x_end := last_x_end st;
          line_height := line_height st |}.

(** The whole Line Grouper: the loop, then the flush of the last line
    (app.py 164-166). *)
Definition group_lines (fs : list field) : result (list str) :=
  st <- for_each group_step fs ginit ;;
  Ok (fst (flush (lines st) (current_line st))).

(** ** Paragraph Assembler, Markdown Emitter and the two call sites

    [str.isupper] reads the Unicode character database, which is not part of
    the repository: the table beyond ASCII is a parameter of the development. *)

Section Reconstruction.

Variable unicode_upper : char -> bool.

(** [c.isupper()] for a one-character string. *)
Definition isupper (c : char) : bool :=
  if (c <? 128)%N then (65 <=? c)%N && (c <=? 90)%N else unicode_upper c.

(** *** Paragraph Assembler (app.py 168-202 and 333-367) *)

(** The tuple given to [endswith]: full stop, question mark, exclamation
    mark, double quote, single quote, the closing brackets U+300D, U+300F,
    U+300B, U+FF09, U+3011 and the ASCII closing parenthesis. *)
Definition sentence_enders : list str :=
  [ [46%N]; [63%N]; [33%N]; [34%N]; [39%N];
    [12301%N]; [12303%N]; [12299%N]; [65289%N]; [12305%N]; [41%N] ].

Record pstate : Type := {
  processed_lines : list str;
  current_paragraph : list str
}.

Definition pinit : pstate :=
  {| processed_lines := []; current_paragraph := [] |}.

(** [next_line_new_sentence] of iteration [i] (app.py 186-190). *)
Definition next_line_new_sentence (lines : list str) (i : nat) : result bool :=
  if Z.of_nat i <? Z.of_nat (length lines) - 1 then
    l <- index lines (i + 1) ;;
    if truthy (strip l) then
      l <- index lines (i + 1) ;;
      let next_line := strip l in
      c <- index next_line 0 ;;
      Ok (isupper c || startswith next_line (SPACE ++ SPACE))
    else Ok false
  else Ok false.

(** One iteration of [for i, line in enumerate(lines)] (app.py 172-198). *)
Definition paragraph_step (lines : list str) (st : pstate) (il : nat * str)
  : result pstate :=
  let '(i, line) := il in
  if negb (truthy (strip line)) then
    let '(out, _) := flush (processed_lines st) (current_paragraph st) in
    Ok {| processed_lines := out ++ [[]]; current_paragraph := [] |}
  else
    let ends_with_sentence := endswith_any (rstrip line) sentence_enders in
    new_sentence <- next_line_new_sentence lines i ;;
    let paragraph := current_paragraph st ++ [line] in
    if ends_with_sentence
       && (new_sentence || (Z.of_nat i =? Z.of_nat (length lines) - 1)) then
      Ok {| processed_lines := processed_lines st ++ [join SPACE paragraph];
            current_paragraph := [] |}
    else
      Ok {| processed_lines := processed_lines st;
            current_paragraph := paragraph |}.

(** The whole Paragraph Assembler, with the flush of the last paragraph. *)
Definition assemble (lines : list str) : result (list str) :=
  st <- for_each (paragraph_step lines) (enumerate lines) pinit ;;
  Ok (fst (flush (processed_lines st) (current_paragraph st))).

(** *** Markdown Emitter (app.py 204-231 and 369-393) *)

(** [in_table] is a local of the enclosing function: [None] is "not yet
    assigned". *)
Record estate : Type := {
  markdown_text : str;
  in_table : option bool
}.

(** The heading test of iteration [i] (app.py 215-216). *)
Definition is_heading (processed : list str) (i : nat) (line : str)
  : result bool :=
  if Z.of_nat (length line) <? 50 then
    after_blank <-
      match i with
      | O => Ok true
      | S j => prev <- index processed j ;; Ok (negb (truthy (strip prev)))
      end ;;
    if after_blank then
      if Z.of_nat i <? Z.of_nat (length processed) - 1 then
        next <- index processed (i + 1) ;;
        Ok (truthy (strip next))
      else Ok false
    else Ok false
  else Ok false.

Definition DASHES : str := lit "---".

(** ["| " + " | ".join(cells) + " |\n"] *)
Definition table_row (cells : list str) : str :=
  lit "| " ++ join (lit " | ") cells ++ lit " |" ++ NL.

(** One iteration of [for i, line in enumerate(processed_lines)]
    (app.py 208-231). *)
Definition emit_step (processed : list str) (st : estate) (il : nat * str)
  : result estate :=
  let '(i, line) := il in
  if negb (truthy (strip line)) then
    Ok {| markdown_text := markdown_text st ++ NL; in_table := Some false |}
  else
    heading <- is_heading processed i line ;;
    if heading then
      Ok {| markdown_text := markdown_text st ++ lit "### " ++ line ++ NL ++ NL;
            in_table := in_table st |}
    else if contains BAR line || contains TAB line then
      let cells := if contains BAR line then split BAR line
                   else split TAB line in
      match in_table st with
      | None => Raise UnboundLocalError
      | Some false =>
          Ok {| markdown_text :=
                  (markdown_text st ++ table_row cells)
                  ++ table_row (List.map (fun _ => DASHES) cells);
                in_table := Some true |}
      | Some true =>
          Ok {| markdown_text := markdown_text st ++ table_row cells;
                in_table := Some true |}
      end
    else
      Ok {| markdown_text := markdown_text st ++ line ++ NL ++ NL;
            in_table := Some false |}.

(** The emitter loop from a given binding of [in_table]. *)
Definition emit (in_table0 : option bool) (processed : list str) : result str :=
  st <- for_each (emit_step processed) (enumerate processed)
          {| markdown_text := []; in_table := in_table0 |} ;;
  Ok (markdown_text st).

(** The three stages in sequence. *)
Definition reconstruct (in_table0 : option bool) (fs : list field) : result str :=
  lines <- group_lines fs ;;
  processed <- assemble lines ;;
  emit in_table0 processed.

(** *** PDF path *)

(** [ClovaOCRProcessor._extract_text]: [in_table = False] precedes the
    emitter loop (app.py 206). *)
Definition extract_text (r : image_result) : result str :=
  match fields r with
  | None => Ok []
  | Some fs => reconstruct (Some false) fs
  end.

(** "페이지" *)
Definition PAGE : str := [54168%N; 51060%N; 51648%N].

(** "OCR 결과를 불러오지 못했습니다." *)
Definition FALLBACK : str :=
  lit "OCR " ++ [44208%N; 44284%N; 47484%N] ++ SPACE
  ++ [48520%N; 47084%N; 50724%N; 51648%N] ++ SPACE
  ++ [47803%N; 54664%N; 49845%N; 45768%N; 45796%N] ++ lit ".".

(** One iteration of [for idx, image_result in enumerate(...)]
    (app.py 49-51). *)
Definition page_step (all_page_texts : list str) (ip : nat * image_result)
  : result (list str) :=
  let '(idx, r) := ip in
  page_text <- extract_text r ;;
  Ok (all_page_texts
      ++ [lit "## " ++ PAGE ++ SPACE ++ str_of_nat (idx + 1) ++ NL ++ NL
          ++ page_text]).

(** [process_pdf] from the reply of [_call_ocr_api] on ([None] when the
    request failed). *)
Definition process_pdf (reply : option ocr_result) : result str :=
  match reply with
  | Some {| images := Some (p :: ps) |} =>
      all_page_texts <- for_each page_step (enumerate (p :: ps)) [] ;;
      Ok (join (NL ++ NL) all_page_texts)
  | _ => Ok FALLBACK
  end.

(** *** Image path *)

(** The inline copy in [call_naver_ocr_image]: no assignment to [in_table]
    precedes the emitter loop (app.py 258-370). *)
Definition image_markdown (fs : list field) : result str :=
  reconstruct None fs.

(** The error messages of [call_naver_ocr_image] after the reply is parsed. *)
Inductive image_error : Type :=
| NoTextExtracted             (* "이미지에서 텍스트를 추출하지 못했습니다." *)
| UnexpectedError (e : exn).  (* f"OCR 처리 중 예상치 못한 오류: {e}" *)

(** The body of the [try] from [result_json = response.json()] on
    (app.py 255-397): the Markdown text before the final test. *)
Definition image_body (result_json : ocr_result) : result str :=
  match images result_json with
  | Some (first :: _) =>
      match fields first with
      | Some fs => image_markdown fs
      | None =>
          match title first with
          | Some t => Ok (lit "# " ++ get (title_inferText t) [] ++ NL ++ NL)
          | None => Ok []
          end
      end
  | _ => Ok []
  end.

(** [call_naver_ocr_image] from the parsed reply on: the pair
    [(markdown_text, error_msg)] it returns (app.py 399-409). *)
Definition call_naver_ocr_image (result_json : ocr_result)
  : option str * option image_error :=
  match image_body result_json with
  | Raise e => (None, Some (UnexpectedError e))
  | Ok markdown_text =>
      if negb (truthy markdown_text) then (None, Some NoTextExtracted)
      else (Some markdown_text, None)
  end.

End Reconstruction.

(** ** Concrete fragments for the examples *)

Definition vtx (x y : Z) : vertex := {| vx := Some x; vy := Some y |}.

(** A fragment whose box has corners [(x0,y0)] and [(x1,y1)], in the order the
    service gives them (clockwise from the top left). *)
Definition boxed (text : string) (x0 y0 x1 y1 : Z) : field :=
  {| inferText := Some (lit text);
     boundingPoly :=
       Some {| vertices := Some [vtx x0 y0; vtx x1 y0; vtx x1 y1; vtx x0 y1] |} |}.

(** A fragment without [boundingPoly]. *)
Definition unboxed (text : string) : field :=
  {| inferText := Some (lit text); boundingPoly := None |}.

(** A fragment without [boundingPoly] whose text is [a<TAB>b]. *)
Definition tabbed : field :=
  {| inferText := Some [97%N; TAB; 98%N]; boundingPoly := None |}.

(** An uppercase table with nothing beyond ASCII, for the examples. *)
Definition ascii_only : char -> bool := fun _ => false.

(** ** Definitions used to state the properties *)

(** The height that the Line Grouper fixes as [line_height] for a page: the
    height of the first fragment that has vertices, kept or not. *)
Fixpoint page_line_height (fs : list field) : option Z :=
  match fs with
  | [] => None
  | f :: fs' =>
      match field_vertices f with
      | [] => page_line_height fs'
      | _ :: _ =>
          match box_of (field_vertices f) with
          | Ok b => Some (height b)
          | Raise _ => None
          end
      end
  end.

(** A fragment that the vertical-text filter drops (app.py 122-123). *)
Definition dropped (f : field) : Prop :=
  exists b, field_vertices f <> [] /\ box_of (field_vertices f) = Ok b
            /\ width b < height b.

(** Provenance of an entry of [lines]: the flush of a buffer of fragment texts
    (app.py 151 and 166) or the marker of a paragraph break (app.py 156). *)
Inductive entry : Type :=
| Joined (texts : list str)
| ParagraphMark.

Definition entry_str (e : entry) : str :=
  match e with
  | Joined texts => join SPACE texts
  | ParagraphMark => []
  end.

(** The Line Grouper with each entry of [lines] tagged by the statement that
    appends it; everything else is [group_step]. *)
Record tstate : Type := {
  tlines : list entry;
  tcurrent_line : list str;
  tlast_y : option Z;
  tlast_x_end : option Z;
  tline_height : option Z
}.

Definition untag (t : tstate) : gstate :=
  {| lines := List.map entry_str (tlines t);
     current_line := tcurrent_line t;
     last_y := tlast_y t; last_x_end := tlast_x_end t;
     line_height := tline_height t |}.

Definition tflush (ls : list entry) (cur : list str) : list entry * list str :=
  match cur with
  | [] => (ls, [])
  | _ :: _ => (ls ++ [Joined cur], [])
  end.

Definition group_step_tagged (t : tstate) (f : field) : result tstate :=
  let text := field_text f in
  let vs := field_vertices f in
  if truthy vs && (0 <? Z.of_nat (length vs)) then
    b <- box_of vs ;;
    let lh := line_height (fix_line_height (untag t) b) in
    if width b <? height b then
      Ok {| tlines := tlines t; tcurrent_line := tcurrent_line t;
            tlast_y := tlast_y t; tlast_x_end := tlast_x_end t;
            tline_height := lh |}
    else
      flags <- break_flags (fix_line_height (untag t) b) b ;;
      let '(new_line, new_paragraph) := flags in
      let '(ls, cur) :=
        if new_line then
          let '(ls, cur) := tflush (tlines t) (tcurrent_line t) in
          (if new_paragraph then ls ++ [ParagraphMark] else ls, cur)
        else (tlines t, tcurrent_line t) in
      Ok {| tlines := ls; tcurrent_line := cur ++ [text];
            tlast_y := Some (current_y b);
            tlast_x_end := Some (current_x_end b);
            tline_height := lh |}
  else
    Ok {| tlines := tlines t; tcurrent_line := tcurrent_line t ++ [text];
          tlast_y := tlast_y t; tlast_x_end := tlast_x_end t;
          tline_height := tline_height t |}.

Definition tinit : tstate :=
  {| tlines := []; tcurrent_line := []; tlast_y := None; tlast_x_end := None;
     tline_height := None |}.

Definition group_lines_tagged (fs : list field) : result (list entry) :=
  t <- for_each group_step_tagged fs tinit ;;
  Ok (fst (tflush (tlines t) (tcurrent_line t))).

(** The joined entries hold non-empty buffers. *)
Definition buffers_nonempty (ls : list entry) : Prop :=
  Forall (fun e => match e with
                   | Joined texts => texts <> []
                   | ParagraphMark => True
                   end) ls.

(** A vertex with each missing coordinate written out as 0. *)
Definition fill_vertex (v : vertex) : vertex :=
  {| vx := Some (get (vx v) 0); vy := Some (get (vy v) 0) |}.

(** A fragment with the missing coordinates of its vertices written out. *)
Definition fill_field (f : field) : field :=
  {| inferText := inferText f;
     boundingPoly :=
       match boundingPoly f with
       | None => None
       | Some p =>
           Some {| vertices :=
                     match vertices p with
                     | None => None
                     | Some vs => Some (List.map fill_vertex vs)
                     end |}
       end |}.

(** The block of one page in the aggregated output:
    [## 페이지 {idx+1}\n\n{text}]. *)
Definition page_block (it : nat * str) : str :=
  lit "## " ++ PAGE ++ SPACE ++ str_of_nat (fst it + 1) ++ NL ++ NL ++ snd it.

(** Number of cells of a rendered table row: its bars delimit the cells. *)
Definition row_cells (row : str) : nat := count_occ N.eq_dec row BAR - 1.

(** ** Further definitions used to state properties of the stages *)

(** A fragment that reaches [current_line.append(text)]: it has no vertices
    (app.py 161-162) or passes the vertical-text filter (app.py 122-123). *)
Definition kept (f : field) : bool :=
  match field_vertices f with
  | [] => true
  | _ :: _ =>
      match box_of (field_vertices f) with
      | Ok b => negb (width b <? height b)
      | Raise _ => false
      end
  end.

(** The fragment texts held by an entry of [lines]. *)
Definition entry_texts (e : entry) : list str :=
  match e with
  | Joined texts => texts
  | ParagraphMark => []
  end.

(** Shape of a sequence of entries in which a paragraph marker only stands
    between two joined lines: it is built by appending a joined line, or, to
    a non-empty sequence, a marker followed by a joined line. *)
Inductive separated : list entry -> Prop :=
| separated_nil : separated []
| separated_line (es : list entry) (texts : list str) :
    separated es -> separated (es ++ [Joined texts])
| separated_break (es : list entry) (texts : list str) :
    separated es -> es <> [] ->
    separated (es ++ [ParagraphMark; Joined texts]).

(** The table test of the emitter (app.py 221). *)
Definition table_line (line : str) : bool :=
  contains BAR line || contains TAB line.

(** The processed lines on which the emitter of the image path reads
    [in_table] before any assignment: the first entry is not blank and is a
    table line that is not emitted as a heading, or it is emitted as a heading
    (it is short and the second entry is not blank) and the second entry is a
    table line. *)
Definition image_emitter_fails (processed : list str) : bool :=
  match processed with
  | [] => false
  | a :: rest =>
      truthy (strip a)
      && match rest with
         | [] => table_line a
         | b :: _ =>
             if (Z.of_nat (length a) <? 50) && truthy (strip b)
             then table_line b
             else table_line a
         end
  end.

(** *** The start-button handler (app.py 439-492)

    The handler is modelled from the replies of the OCR service on: writing
    the upload to a temporary file and the HTTP request are outside. *)

Definition SLASH : char := 47%N.

(** [a == b] on strings. *)
Fixpoint str_eqb (a b : str) : bool :=
  match a, b with
  | [], [] => true
  | c :: a', d :: b' => (c =? d)%N && str_eqb a' b'
  | _, _ => false
  end.

Inductive processed_type : Type := PdfType | ImageType.

(** [st.session_state]; [extracted_text] is [None] when Python's [None] was
    stored in it. *)
Record session : Type := {
  extracted_text : option str;
  processing_done : bool;
  last_processed_type : option processed_type
}.

(** The reset at app.py 440-442. *)
Definition session_reset : session :=
  {| extracted_text := Some []; processing_done := false;
     last_processed_type := None |}.

(** [file_type.split('/')[-1]] (app.py 478). *)
Definition img_format (file_type : str) : result str :=
  let parts := split SLASH file_type in
  index parts (length parts - 1).

(** The branch taken for the uploaded file and the session state it leaves
    (app.py 448-492); [pdf_reply] is what [_call_ocr_api] returns and
    [image_reply] is the parsed reply inside [call_naver_ocr_image]. *)
Definition handle_upload (upper : char -> bool) (file_type : str)
  (pdf_reply : option ocr_result) (image_reply : ocr_result) : session :=
  if str_eqb file_type (lit "application/pdf") then
    match process_pdf upper pdf_reply with
    | Ok text =>
        {| extracted_text := Some text; processing_done := true;
           last_processed_type := Some PdfType |}
    | Raise _ =>
        {| extracted_text := Some []; processing_done := false;
           last_processed_type := Some PdfType |}
    end
  else if startswith file_type (lit "image/") then
    match img_format file_type with
    | Raise _ =>
        {| extracted_text := Some []; processing_done := false;
           last_processed_type := Some ImageType |}
    | Ok _ =>
        match call_naver_ocr_image upper image_reply with
        | (_, Some _) =>
            {| extracted_text := Some []; processing_done := false;
               last_processed_type := Some ImageType |}
        | (markdown_text, None) =>
            {| extracted_text := markdown_text; processing_done := true;
               last_processed_type := Some ImageType |}
        end
    end
  else session_reset.

(** [if st.session_state.processing_done and st.session_state.extracted_text]
    (app.py 495): the result block is displayed. *)
Definition result_displayed (s : session) : bool :=
  processing_done s
  && match extracted_text s with
     | Some text => truthy text
     | None => false
     end.

(** ** The range in which the embedding follows the floating-point test *)

(** The line height of the page keeps [line_height * 1.5] exact. *)
Definition exact_line_height (fs : list field) : Prop :=
  forall h, page_line_height fs = Some h -> 3 * h < 2 ^ 53.

(** The same for a page result; a page without ['fields'] has no line
    height. *)
Definition exact_page (r : image_result) : Prop :=
  forall fs, fields r = Some fs -> exact_line_height fs.

(** [vertex.get('x', 0)] and [vertex.get('y', 0)]. *)
Definition vertex_x (v : vertex) : Z :=
  match vx v with
  | Some x => x
  | None => 0
  end.

Definition vertex_y (v : vertex) : Z :=
  match vy v with
  | Some y => y
  | None => 0
  end.

(** ** The reply of [_call_ocr_api] with a JSON value under ['images'] *)

(** The value under ['images']: JSON null or an array of image results. *)
Inductive images_json : Type :=
| ImagesNull
| ImagesArray (pages : list image_result).

(** The parsed reply; [None] is a reply without the ['images'] key. *)
Record reply_json : Type := { images_value : option images_json }.

(** [process_pdf] from the reply of [_call_ocr_api] on, when the value under
    ['images'] may be null (app.py 47-54): [len(None)] raises TypeError; on
    an array the test and the loop are those of [process_pdf]. *)
Definition process_pdf_json (upper : char -> bool) (reply : option reply_json)
  : result str :=
  match reply with
  | None => Ok FALLBACK
  | Some r =>
      match images_value r with
      | None => Ok FALLBACK
      | Some ImagesNull => Raise TypeError
      | Some (ImagesArray pages) =>
          process_pdf upper (Some {| images := Some pages |})
      end
  end.

(** The PDF branch of the handler from the parsed reply on (app.py 448-472).
    [io_ok] tells whether every step before the reply is examined went
    through: the upload written to the temporary file (456-457), read back
    (31-32) and [_call_ocr_api] returned.  Any exception is caught at 466 and
    leaves the session as the reset and line 449 made it. *)
Definition handle_pdf_upload (upper : char -> bool) (io_ok : bool)
  (reply : option reply_json) : session :=
  if io_ok then
    match process_pdf_json upper reply with
    | Ok text =>
        {| extracted_text := Some text; processing_done := true;
           last_processed_type := Some PdfType |}
    | Raise _ =>
        {| extracted_text := Some []; processing_done := false;
           last_processed_type := Some PdfType |}
    end
  else
    {| extracted_text := Some []; processing_done := false;
       last_processed_type := Some PdfType |}.

(** * Properties *)

(** ** Loops *)

Lemma bind_ok {A B : Type} (r : result A) (k : A -> result B) (b : B) :
  bind r k = Ok b -> exists a, r = Ok a /\ k a = Ok b.
Proof.
  destruct r as [a|e]; simpl; intros H; [exists a; auto | discriminate].
Qed.

Lemma for_each_app {S A : Type} (body : S -> A -> result S) (l1 l2 : list A)
  (s : S) :
  for_each body (l1 ++ l2) s = (s' <- for_each body l1 s ;; for_each body l2 s').
Proof.
  revert s; induction l1 as [|a l1 IH]; intros s; simpl; [reflexivity|].
  destruct (body s a) as [s1|e]; simpl; auto.
Qed.

(** A loop whose body keeps an invariant and never raises under it runs to
    completion. *)
Lemma for_each_invariant {S A : Type} (body : S -> A -> result S)
  (P : S -> Prop) (Q : A -> Prop) :
  (forall s a, P s -> Q a -> exists s', body s a = Ok s' /\ P s') ->
  forall l s, Forall Q l -> P s ->
  exists s', for_each body l s = Ok s' /\ P s'.
Proof.
  intros Hstep l; induction l as [|a l IH]; intros s HQ HP; simpl.
  - exists s; auto.
  - inversion HQ as [|? ? Ha Hl]; subst.
    destruct (Hstep s a HP Ha) as (s1 & -> & HP1); simpl.
    apply IH; assumption.
Qed.

(** Two loops over the same elements whose bodies stay related produce related
    states, whenever the first one completes. *)
Lemma for_each_simulation {S T A : Type} (body1 : S -> A -> result S)
  (body2 : T -> A -> result T) (R : S -> T -> Prop) :
  (forall s t a s', R s t -> body1 s a = Ok s' ->
                    exists t', body2 t a = Ok t' /\ R s' t') ->
  forall l s t s', R s t -> for_each body1 l s = Ok s' ->
  exists t', for_each body2 l t = Ok t' /\ R s' t'.
Proof.
  intros Hstep l; induction l as [|a l IH]; intros s t s' HR H; simpl in *.
  - inversion H; subst; exists t; auto.
  - apply bind_ok in H; destruct H as (s1 & H1 & H2).
    destruct (Hstep s t a s1 HR H1) as (t1 & -> & HR1); simpl.
    eapply IH; eassumption.
Qed.

Lemma in_combine_seq {A : Type} (l : list A) (k i : nat) (x : A) :
  In (i, x) (combine (seq k (length l)) l) ->
  (k <= i)%nat /\ nth_error l (i - k) = Some x.
Proof.
  revert k; induction l as [|a l IH]; intros k; simpl; [tauto|].
  intros [H|H].
  - inversion H; subst. rewrite Nat.sub_diag; split; [lia | reflexivity].
  - apply IH in H; destruct H as [Hk Hn]; split; [lia|].
    replace (i - k)%nat with (S (i - S k)) by lia; exact Hn.
Qed.

Lemma in_enumerate {A : Type} (l : list A) (i : nat) (x : A) :
  In (i, x) (enumerate l) -> nth_error l i = Some x.
Proof.
  intros H; apply in_combine_seq in H; destruct H as [_ H].
  now rewrite Nat.sub_0_r in H.
Qed.

Lemma index_in_range {A : Type} (l : list A) (i : nat) :
  (i < length l)%nat -> exists a, index l i = Ok a /\ nth_error l i = Some a.
Proof.
  intros H; unfold index; destruct (nth_error l i) as [a|] eqn:E.
  - exists a; auto.
  - apply nth_error_None in E; lia.
Qed.

(** ** The Line Grouper never raises *)

Lemma box_of_total (vs : list vertex) :
  vs <> [] -> exists b, box_of vs = Ok b.
Proof.
  destruct vs as [|v vs]; [congruence|]; intros _.
  unfold box_of; simpl; eexists; reflexivity.
Qed.

Lemma break_flags_total (st : gstate) (b : box) :
  line_height st <> None -> exists fl, break_flags st b = Ok fl.
Proof.
  intros H; unfold break_flags.
  destruct (last_y st) as [ly|]; [|eexists; reflexivity].
  destruct (y_threshold <? Z.abs (current_y b - ly)).
  - destruct (line_height st); [eexists; reflexivity | congruence].
  - destruct (last_x_end st); eexists; reflexivity.
Qed.

Lemma fix_line_height_set (st : gstate) (b : box) :
  line_height (fix_line_height st b) <> None.
Proof. unfold fix_line_height; simpl; destruct (line_height st); discriminate. Qed.

(** The guard [vertices and len(vertices) > 0]. *)
Lemma has_vertices_true (vs : list vertex) :
  vs <> [] -> truthy vs && (0 <? Z.of_nat (length vs)) = true.
Proof. destruct vs; [congruence | reflexivity]. Qed.

Lemma group_step_total (st : gstate) (f : field) :
  exists st', group_step st f = Ok st'.
Proof.
  unfold group_step.
  destruct (field_vertices f) as [|v vs] eqn:E; [eexists; reflexivity|].
  rewrite has_vertices_true by discriminate.
  destruct (box_of_total (v :: vs)) as (b & Hb); [discriminate|].
  rewrite Hb; simpl.
  destruct (width b <? height b); [eexists; reflexivity|].
  destruct (break_flags_total (fix_line_height st b) b
              (fix_line_height_set st b)) as ([nl np] & ->); simpl.
  destruct nl; [destruct (flush _ _)|]; eexists; reflexivity.
Qed.

Lemma group_loop_total (fs : list field) (st : gstate) :
  exists st', for_each group_step fs st = Ok st'.
Proof.
  revert st; induction fs as [|f fs IH]; intros st; simpl.
  - eexists; reflexivity.
  - destruct (group_step_total st f) as (st1 & ->); simpl; apply IH.
Qed.

Lemma group_lines_total (fs : list field) :
  exists ls, group_lines fs = Ok ls.
Proof.
  unfold group_lines; destruct (group_loop_total fs ginit) as (st & ->); simpl.
  eexists; reflexivity.
Qed.

(** ** The Paragraph Assembler never raises *)

Section Totality.

Variable upper : char -> bool.

Lemma next_line_new_sentence_total (lines : list str) (i : nat) :
  exists b, next_line_new_sentence upper lines i = Ok b.
Proof.
  unfold next_line_new_sentence.
  destruct (Z.of_nat i <? Z.of_nat (length lines) - 1) eqn:E;
    [|eexists; reflexivity].
  apply Z.ltb_lt in E.
  destruct (index_in_range lines (i + 1)%nat) as (l & Hl & _); [lia|].
  rewrite Hl; cbn [bind].
  destruct (strip l) as [|c rest]; cbn [truthy bind]; eexists; reflexivity.
Qed.

Lemma paragraph_step_total (lines : list str) (st : pstate) (il : nat * str) :
  exists st', paragraph_step upper lines st il = Ok st'.
Proof.
  destruct il as [i line]; unfold paragraph_step.
  destruct (negb (truthy (strip line))).
  - destruct (flush _ _); eexists; reflexivity.
  - destruct (next_line_new_sentence_total lines i) as (b & ->); cbn [bind].
    match goal with |- context [if ?c then _ else _] => destruct c end;
      eexists; reflexivity.
Qed.

Lemma assemble_total (lines : list str) :
  exists processed, assemble upper lines = Ok processed.
Proof.
  unfold assemble.
  assert (H : forall (l : list (nat * str)) st,
             exists st', for_each (paragraph_step upper lines) l st = Ok st').
  { induction l as [|il l IH]; intros st; simpl; [eexists; reflexivity|].
    destruct (paragraph_step_total lines st il) as (st1 & ->); simpl; apply IH. }
  destruct (H (enumerate lines) (pinit)) as (st & ->); simpl.
  eexists; reflexivity.
Qed.

(** ** The Markdown Emitter never raises once [in_table] is bound *)

Lemma is_heading_total (processed : list str) (i : nat) (line : str) :
  nth_error processed i = Some line ->
  exists b, is_heading processed i line = Ok b.
Proof.
  intros Hi; unfold is_heading.
  assert (Hlt : (i < length processed)%nat)
    by (apply nth_error_Some; congruence).
  destruct (Z.of_nat (length line) <? 50); [|eexists; reflexivity].
  assert (Hprev : exists b,
             match i with
             | O => Ok true
             | S j => prev <- index processed j ;;
                      Ok (negb (truthy (strip prev)))
             end = Ok b).
  { destruct i as [|j]; [eexists; reflexivity|].
    destruct (index_in_range processed j) as (p & -> & _); [lia|].
    eexists; reflexivity. }
  destruct Hprev as (b & ->); cbn [bind].
  destruct b; [|eexists; reflexivity].
  destruct (Z.of_nat i <? Z.of_nat (length processed) - 1) eqn:E;
    [|eexists; reflexivity].
  apply Z.ltb_lt in E.
  destruct (index_in_range processed (i + 1)%nat) as (n & -> & _); [lia|].
  eexists; reflexivity.
Qed.

Lemma emit_step_bound (processed : list str) (st : estate) (i : nat)
  (line : str) (b : bool) :
  in_table st = Some b ->
  nth_error processed i = Some line ->
  exists st' b', emit_step processed st (i, line) = Ok st'
                 /\ in_table st' = Some b'.
Proof.
  intros Hb Hi; unfold emit_step.
  destruct (negb (truthy (strip line))); [do 2 eexists; split; reflexivity|].
  destruct (is_heading_total processed i line Hi) as (h & ->); cbn [bind].
  destruct h; [do 2 eexists; split; [reflexivity | exact Hb]|].
  destruct (contains BAR line || contains TAB line).
  - rewrite Hb; destruct b; do 2 eexists; split; reflexivity.
  - do 2 eexists; split; reflexivity.
Qed.

Lemma enumerate_indexed {A : Type} (l : list A) :
  Forall (fun il => nth_error l (fst il) = Some (snd il)) (enumerate l).
Proof.
  apply Forall_forall; intros [i x] H; simpl; now apply in_enumerate.
Qed.

Lemma emit_total (processed : list str) (b : bool) :
  exists md, emit (Some b) processed = Ok md.
Proof.
  unfold emit.
  destruct (for_each_invariant (emit_step processed)
              (fun st => exists b, in_table st = Some b)
              (fun il => nth_error processed (fst il) = Some (snd il)))
    with (l := enumerate processed)
         (s := {| markdown_text := []; in_table := Some b |})
    as (st & -> & _).
  - intros s [i line] [b0 Hb] Hi; simpl in Hi.
    destruct (emit_step_bound processed s i line b0 Hb Hi) as (s' & b' & H1 & H2); eauto.
  - apply enumerate_indexed.
  - simpl; eauto.
  - simpl; eexists; reflexivity.
Qed.

Lemma reconstruct_total (fs : list field) (b : bool) :
  exists md, reconstruct upper (Some b) fs = Ok md.
Proof.
  unfold reconstruct.
  destruct (group_lines_total fs) as (ls & ->); cbn [bind].
  destruct (assemble_total ls) as (pl & ->); cbn [bind].
  apply emit_total.
Qed.

Lemma extract_text_total (r : image_result) :
  exists md, extract_text upper r = Ok md.
Proof.
  unfold extract_text; destruct (fields r) as [fs|].
  - apply reconstruct_total.
  - eexists; reflexivity.
Qed.

End Totality.

(** ** The two call sites *)

(** The emitter started with [in_table] unbound agrees with the emitter
    started with [in_table = False] on every step that it completes. *)
Lemma emit_step_unbound (processed : list str) (s t s' : estate)
  (il : nat * str) :
  markdown_text s = markdown_text t ->
  in_table s = in_table t \/ (in_table s = None /\ in_table t = Some false) ->
  emit_step processed s il = Ok s' ->
  exists t', emit_step processed t il = Ok t'
             /\ markdown_text s' = markdown_text t'
             /\ (in_table s' = in_table t'
                 \/ (in_table s' = None /\ in_table t' = Some false)).
Proof.
  destruct il as [i line]; intros Hmd Hit; unfold emit_step.
  destruct (negb (truthy (strip line))).
  - intros H; inversion H; subst; eexists; split; [reflexivity|].
    simpl; rewrite Hmd; auto.
  - destruct (is_heading processed i line) as [h|e]; cbn [bind];
      [|discriminate].
    destruct h.
    + intros H; inversion H; subst; eexists; split; [reflexivity|].
      simpl; rewrite Hmd; auto.
    + destruct (contains BAR line || contains TAB line).
      * destruct Hit as [Hit|[Hs Ht]].
        -- rewrite <- Hit; destruct (in_table s) as [[|]|]; intros H;
             inversion H; subst; eexists; (split; [reflexivity|]);
             simpl; rewrite Hmd; auto.
        -- rewrite Hs; discriminate.
      * intros H; inversion H; subst; eexists; split; [reflexivity|].
        simpl; rewrite Hmd; auto.
Qed.

(** Whenever the inline copy of the image path returns a Markdown string, the
    PDF path returns the same string on the same fragments. *)
Lemma image_agrees_when_it_completes (upper : char -> bool) (fs : list field)
  (md : str) :
  image_markdown upper fs = Ok md ->
  extract_text upper {| fields := Some fs; title := None |} = Ok md.
Proof.
  unfold image_markdown, extract_text, reconstruct; simpl.
  destruct (group_lines fs) as [ls|e]; cbn [bind]; [|discriminate].
  destruct (assemble upper ls) as [pl|e]; cbn [bind]; [|discriminate].
  unfold emit; intros H; apply bind_ok in H; destruct H as (s & Hs & Hmd).
  inversion Hmd; subst; clear Hmd.
  destruct (for_each_simulation (emit_step pl) (emit_step pl)
              (fun s t => markdown_text s = markdown_text t
                          /\ (in_table s = in_table t
                              \/ (in_table s = None /\ in_table t = Some false))))
    with (l := enumerate pl) (s := {| markdown_text := []; in_table := None |})
         (t := {| markdown_text := []; in_table := Some false |}) (s' := s)
    as (t' & -> & Hmd & _); auto.
  - intros s0 t0 a s1 [H1 H2] H3.
    destruct (emit_step_unbound pl s0 t0 s1 a H1 H2 H3) as (t1 & ? & ? & ?).
    eauto.
  - simpl; rewrite Hmd; reflexivity.
Qed.

(** C1 (the two call sites produce the same Markdown string): fails on the
    code.  On the single fragment "A|B" the PDF path returns a two-row table
    while the inline copy of the image path reads [in_table] before any
    assignment: it raises UnboundLocalError, which [call_naver_ocr_image]
    turns into its unexpected-error message. *)
Theorem call_sites_differ_on_table_first :
  forall upper : char -> bool,
    extract_text upper {| fields := Some [unboxed "A|B"]; title := None |}
    = Ok (lit "| A | B |" ++ NL ++ lit "| --- | --- |" ++ NL)
    /\ image_markdown upper [unboxed "A|B"] = Raise UnboundLocalError
    /\ call_naver_ocr_image upper
         {| images := Some [{| fields := Some [unboxed "A|B"];
                               title := None |}] |}
       = (None, Some (UnexpectedError UnboundLocalError)).
Proof. intros upper; repeat split; vm_compute; reflexivity. Qed.

(** C2 (the reconstruction never raises, in both paths): the PDF path
    returns a text for every page result whose line height is in the exact
    range; the image path fails: its emitter raises UnboundLocalError when
    the first line that reaches the table test contains a tab (or a bar). *)
Theorem pdf_total_image_raises :
  (forall (upper : char -> bool) (r : image_result),
      exact_page r -> exists md, extract_text upper r = Ok md)
  /\ (forall upper : char -> bool,
         image_markdown upper [tabbed] = Raise UnboundLocalError).
Proof.
  split.
  - intros upper r _; apply extract_text_total.
  - intros upper; vm_compute; reflexivity.
Qed.

Lemma pdf_total_image_raises_witness :
  let r := {| fields := Some [boxed "a" 0 0 30 20; boxed "b" 0 100 30 120];
              title := None |} in
  exact_page r
  /\ exists md, extract_text ascii_only r = Ok md.
Proof.
  intros r.
  assert (H : exact_page r).
  { intros fs E h Hh; inversion E; subst fs.
    vm_compute in Hh; inversion Hh; reflexivity. }
  split; [exact H|].
  exact (proj1 pdf_total_image_raises ascii_only r H).
Defined.

(** ** New-sentence test of the Paragraph Assembler *)

Lemma lstrip_suffix (s : str) : exists w, s = w ++ lstrip s.
Proof.
  induction s as [|c s [w IH]]; simpl; [exists []; reflexivity|].
  destruct (isspace c).
  - exists (c :: w); simpl; congruence.
  - exists []; reflexivity.
Qed.

Lemma lstrip_head (s r : str) (c : char) :
  lstrip s = c :: r -> isspace c = false.
Proof.
  induction s as [|d s IH]; simpl; [discriminate|].
  destruct (isspace d) eqn:E; [exact IH|].
  intros H; inversion H; subst; exact E.
Qed.

Lemma rstrip_prefix (s : str) : exists u, s = rstrip s ++ u.
Proof.
  unfold rstrip; destruct (lstrip_suffix (rev s)) as [w Hw].
  exists (rev w).
  rewrite <- rev_app_distr, <- Hw; symmetry; apply rev_involutive.
Qed.

(** A stripped line does not begin with white space. *)
Lemma strip_head (s r : str) (c : char) :
  strip s = c :: r -> isspace c = false.
Proof.
  unfold strip; intros H.
  destruct (rstrip_prefix (lstrip s)) as [u Hu].
  rewrite H in Hu; simpl in Hu.
  eapply lstrip_head; exact Hu.
Qed.

(** The indentation test of app.py 189 is applied to the stripped line and is
    therefore never true. *)
Lemma startswith_two_spaces_dead (l : str) :
  startswith (strip l) (SPACE ++ SPACE) = false.
Proof.
  destruct (strip l) as [|c r] eqn:E; [reflexivity|].
  apply strip_head in E; simpl.
  destruct (N.eqb_spec c 32); [subst; discriminate | reflexivity].
Qed.

(** What [next_line_new_sentence] computes: the next line exists, is not
    blank, and its first non-blank character is uppercase. *)
Lemma next_line_new_sentence_spec (upper : char -> bool) (lines : list str)
  (i : nat) :
  next_line_new_sentence upper lines i = Ok true <->
  exists l c r, nth_error lines (i + 1) = Some l /\ strip l = c :: r
                /\ isupper upper c = true.
Proof.
  unfold next_line_new_sentence; split.
  - destruct (Z.of_nat i <? Z.of_nat (length lines) - 1); [|discriminate].
    unfold index at 1.
    destruct (nth_error lines (i + 1)) as [l|] eqn:El; cbn [bind];
      [|discriminate].
    destruct (strip l) as [|c r] eqn:Es; cbn [truthy]; [discriminate|].
    unfold index; rewrite El; cbn [bind]; rewrite Es; cbn [nth_error bind].
    pose proof (startswith_two_spaces_dead l) as Hd; rewrite Es in Hd.
    rewrite Hd, orb_false_r; intros H; inversion H.
    exists l, c, r; auto.
  - intros (l & c & r & El & Es & Hu).
    assert (Hlt : (i + 1 < length lines)%nat)
      by (apply nth_error_Some; congruence).
    destruct (Z.ltb_spec (Z.of_nat i) (Z.of_nat (length lines) - 1)); [|lia].
    unfold index; rewrite El; cbn [bind]; rewrite Es;
      cbn [truthy nth_error bind].
    rewrite Hu; reflexivity.
Qed.

(** C3 (a next line that starts with two spaces makes
    [next_line_new_sentence] true): fails on the code.  The lines "End." and
    "  next" come from two fragments on consecutive rows; the second starts
    with two spaces and is not blank, yet the test answers false because the
    line is stripped before [startswith] is applied, and the two lines are
    merged into one paragraph. *)
Theorem indented_next_line_not_new_sentence :
  forall upper : char -> bool,
    let lines := [lit "End."; lit "  next"] in
    group_lines [boxed "End." 0 0 40 20; boxed "  next" 0 20 60 40] = Ok lines
    /\ startswith (lit "  next") (SPACE ++ SPACE) = true
    /\ truthy (strip (lit "  next")) = true
    /\ next_line_new_sentence upper lines 0 = Ok false
    /\ assemble upper lines = Ok [lit "End.   next"].
Proof. intros upper; repeat split; vm_compute; reflexivity. Qed.

(** ** The line height of a page *)

Lemma page_line_height_cons (f : field) (fs : list field) (b : box) :
  field_vertices f <> [] -> box_of (field_vertices f) = Ok b ->
  page_line_height (f :: fs) = Some (height b).
Proof.
  intros Hv Hb; simpl; rewrite Hb.
  destruct (field_vertices f); [congruence | reflexivity].
Qed.

Lemma page_line_height_app (l1 l2 : list field) :
  page_line_height (l1 ++ l2)
  = match page_line_height l1 with
    | Some h => Some h
    | None => page_line_height l2
    end.
Proof.
  induction l1 as [|f l1 IH]; simpl; [reflexivity|].
  destruct (field_vertices f) as [|v vs] eqn:E; [exact IH|].
  destruct (box_of_total (v :: vs)) as (b & ->); [discriminate | reflexivity].
Qed.

Lemma group_step_unboxed (st : gstate) (f : field) :
  field_vertices f = [] ->
  group_step st f
  = Ok {| lines := lines st; current_line := current_line st ++ [field_text f];
          last_y := last_y st; last_x_end := last_x_end st;
          line_height := line_height st |}.
Proof. intros E; unfold group_step; rewrite E; reflexivity. Qed.

(** On a fragment with vertices the step reads the state only after
    [line_height] is fixed. *)
Lemma group_step_boxed (st : gstate) (f : field) (b : box) :
  field_vertices f <> [] -> box_of (field_vertices f) = Ok b ->
  group_step st f
  = let st := fix_line_height st b in
    if width b <? height b then Ok st
    else
      flags <- break_flags st b ;;
      let '(new_line, new_paragraph) := flags in
      let '(ls, cur) :=
        if new_line then
          let '(ls, cur) := flush (lines st) (current_line st) in
          (if new_paragraph then ls ++ [[]] else ls, cur)
        else (lines st, current_line st) in
      Ok {| lines := ls; current_line := cur ++ [field_text f];
            last_y := Some (current_y b);
            last_x_end := Some (current_x_end b);
            line_height := line_height st |}.
Proof.
  intros Hv Hb; unfold group_step.
  rewrite has_vertices_true by exact Hv; rewrite Hb; reflexivity.
Qed.

Lemma group_step_line_height (st st' : gstate) (f : field) :
  group_step st f = Ok st' ->
  line_height st' = match line_height st with
                    | Some h => Some h
                    | None => page_line_height [f]
                    end.
Proof.
  destruct (field_vertices f) as [|v vs] eqn:E.
  - rewrite group_step_unboxed by exact E; intros H; inversion H; subst; simpl.
    rewrite E; destruct (line_height st); reflexivity.
  - destruct (box_of_total (v :: vs)) as (b & Hb); [discriminate|].
    rewrite <- E in Hb.
    rewrite (group_step_boxed st f b) by (congruence || exact Hb).
    rewrite (page_line_height_cons f [] b) by (congruence || exact Hb).
    cbv zeta.
    assert (Hlh : line_height (fix_line_height st b)
                  = match line_height st with
                    | Some h => Some h
                    | None => Some (height b)
                    end)
      by (unfold fix_line_height; simpl; destruct (line_height st); reflexivity).
    destruct (width b <? height b).
    + intros H; inversion H; subst; exact Hlh.
    + destruct (break_flags (fix_line_height st b) b) as [[nl np]|e];
        cbn [bind]; [|discriminate].
      destruct nl; [destruct (flush _ _)|]; intros H; inversion H; subst;
        exact Hlh.
Qed.

(** [line_height] is fixed by the first fragment with vertices and never
    changes afterwards. *)
Lemma group_loop_line_height (fs : list field) (st st' : gstate) :
  for_each group_step fs st = Ok st' ->
  line_height st' = match line_height st with
                    | Some h => Some h
                    | None => page_line_height fs
                    end.
Proof.
  revert st; induction fs as [|f fs IH]; intros st H.
  - simpl in H; inversion H; subst; simpl; destruct (line_height st'); reflexivity.
  - simpl in H; apply bind_ok in H; destruct H as (s1 & H1 & H2).
    apply IH in H2; rewrite H2.
    apply group_step_line_height in H1; rewrite H1.
    change (f :: fs) with ([f] ++ fs); rewrite page_line_height_app.
    destruct (line_height st); [reflexivity|].
    destruct (page_line_height [f]); reflexivity.
Qed.

(** C4, as the code has it: on a page whose [line_height] is zero,
    [new_paragraph] is true at exactly the fragments that start a new line by
    vertical displacement ([y_diff > 10]); each such kept fragment appends the
    empty-string marker to [lines], and no fault occurs. *)
Theorem zero_line_height_breaks (pre post : list field) (f : field)
  (st : gstate) (b : box) :
  page_line_height (pre ++ f :: post) = Some 0 ->
  for_each group_step pre ginit = Ok st ->
  field_vertices f <> [] ->
  box_of (field_vertices f) = Ok b ->
  exists new_line new_paragraph,
    break_flags (fix_line_height st b) b = Ok (new_line, new_paragraph)
    /\ (new_paragraph = true <->
        exists ly, last_y st = Some ly
                   /\ y_threshold < Z.abs (current_y b - ly))
    /\ (width b >= height b ->
        exists st', group_step st f = Ok st'
                    /\ (new_paragraph = true ->
                        lines st'
                        = fst (flush (lines st) (current_line st)) ++ [[]])).
Proof.
  intros Hpage Hpre Hv Hb.
  assert (Hlh : line_height (fix_line_height st b) = Some 0).
  { apply group_loop_line_height in Hpre; simpl in Hpre.
    rewrite page_line_height_app, (page_line_height_cons f post b Hv Hb)
      in Hpage.
    unfold fix_line_height; simpl; rewrite Hpre.
    destruct (page_line_height pre); exact Hpage. }
  rewrite (group_step_boxed st f b Hv Hb); cbv zeta.
  unfold break_flags; rewrite Hlh.
  change (last_y (fix_line_height st b)) with (last_y st).
  change (last_x_end (fix_line_height st b)) with (last_x_end st).
  change (lines (fix_line_height st b)) with (lines st).
  change (current_line (fix_line_height st b)) with (current_line st).
  destruct (last_y st) as [ly|].
  - destruct (Z.ltb_spec y_threshold (Z.abs (current_y b - ly))) as [Hy|Hy].
    + exists true, true; split; [|split].
      * unfold gt_times_1_5.
        destruct (Z.ltb_spec (3 * 0) (2 * Z.abs (current_y b - ly)));
          [reflexivity | unfold y_threshold in Hy; lia].
      * split; [intros _; exists ly; auto | reflexivity].
      * intros Hk; destruct (Z.ltb_spec (width b) (height b)); [lia|].
        unfold gt_times_1_5.
        destruct (Z.ltb_spec (3 * 0) (2 * Z.abs (current_y b - ly)));
          [|unfold y_threshold in Hy; lia].
        cbn [bind]; destruct (flush (lines st) (current_line st)) as [ls cur].
        eexists; split; [reflexivity | intros _; reflexivity].
    + destruct (last_x_end st) as [lx|].
      * exists (x_gap_threshold <? current_x_start b - lx), false;
          split; [reflexivity|]; split.
        -- split; [discriminate|].
           intros (ly' & E & Hlt); inversion E; subst; lia.
        -- intros Hk; destruct (Z.ltb_spec (width b) (height b)); [lia|].
           cbn [bind].
           destruct (x_gap_threshold <? current_x_start b - lx);
             [destruct (flush _ _)|]; eexists; split;
             (reflexivity || discriminate).
      * exists false, false; split; [reflexivity|]; split.
        -- split; [discriminate|].
           intros (ly' & E & Hlt); inversion E; subst; lia.
        -- intros Hk; destruct (Z.ltb_spec (width b) (height b)); [lia|].
           cbn [bind]; eexists; split; (reflexivity || discriminate).
  - exists false, false; split; [reflexivity|]; split.
    + split; [discriminate | intros (ly' & E & _); discriminate].
    + intros Hk; destruct (Z.ltb_spec (width b) (height b)); [lia|].
      cbn [bind]; eexists; split; (reflexivity || discriminate).
Qed.

Lemma zero_line_height_breaks_witness :
  let pre := [boxed "a" 0 0 30 0] in
  let f := boxed "b" 0 100 30 100 in
  let st := {| lines := []; current_line := [lit "a"]; last_y := Some 0;
               last_x_end := Some 30; line_height := Some 0 |} in
  let b := {| width := 30; height := 0; current_y := 100;
              current_x_start := 0; current_x_end := 30 |} in
  (page_line_height (pre ++ f :: []) = Some 0
   /\ for_each group_step pre ginit = Ok st
   /\ field_vertices f <> []
   /\ box_of (field_vertices f) = Ok b)
  /\ exists new_line new_paragraph,
      break_flags (fix_line_height st b) b = Ok (new_line, new_paragraph)
      /\ (new_paragraph = true <->
          exists ly, last_y st = Some ly
                     /\ y_threshold < Z.abs (current_y b - ly))
      /\ (width b >= height b ->
          exists st', group_step st f = Ok st'
                      /\ (new_paragraph = true ->
                          lines st'
                          = fst (flush (lines st) (current_line st)) ++ [[]])).
Proof.
  intros pre f st b.
  assert (H1 : page_line_height (pre ++ f :: []) = Some 0) by reflexivity.
  assert (H2 : for_each group_step pre ginit = Ok st) by reflexivity.
  assert (H3 : field_vertices f <> []) by discriminate.
  assert (H4 : box_of (field_vertices f) = Ok b) by reflexivity.
  split; [repeat split; assumption|].
  exact (zero_line_height_breaks pre [] f st b H1 H2 H3 H4).
Defined.

(** C4 as stated fails: both fragments have height 0, so [line_height] is 0,
    and the second one, 100 pixels lower, puts the empty-string marker into
    [lines]. *)
Lemma zero_height_page_gets_paragraph_marker :
  page_line_height [boxed "a" 0 0 30 0; boxed "b" 0 100 30 100] = Some 0
  /\ group_lines [boxed "a" 0 0 30 0; boxed "b" 0 100 30 100]
     = Ok [lit "a"; []; lit "b"]
  /\ ~ (forall fs ls, page_line_height fs = Some 0 ->
                      group_lines fs = Ok ls -> ~ In [] ls).
Proof.
  split; [reflexivity|]; split; [reflexivity|].
  intros H.
  apply (H [boxed "a" 0 0 30 0; boxed "b" 0 100 30 100] [lit "a"; []; lit "b"]);
    [reflexivity | reflexivity | right; left; reflexivity].
Qed.

(** ** The vertical-text filter *)

Lemma fix_line_height_fixed (st : gstate) (b : box) (h : Z) :
  line_height st = Some h -> fix_line_height st b = st.
Proof.
  destruct st as [ls cur ly lx lh]; unfold fix_line_height; simpl.
  intros ->; reflexivity.
Qed.

(** A dropped fragment changes nothing but a [line_height] not yet fixed. *)
Lemma group_step_dropped (st : gstate) (f : field) (b : box) :
  field_vertices f <> [] -> box_of (field_vertices f) = Ok b ->
  width b < height b ->
  group_step st f = Ok (fix_line_height st b).
Proof.
  intros Hv Hb Hw; rewrite (group_step_boxed st f b Hv Hb); cbv zeta.
  destruct (Z.ltb_spec (width b) (height b)); [reflexivity | lia].
Qed.

(** Fixing [line_height] in advance to the value the page gives it anyway
    does not change the run of the loop. *)
Lemma line_height_anticipated (fs : list field) (st : gstate) (b : box) :
  line_height st = None ->
  page_line_height fs = Some (height b) ->
  for_each group_step fs (fix_line_height st b) = for_each group_step fs st.
Proof.
  revert st; induction fs as [|f fs IH]; intros st Hn Hp; [discriminate|].
  simpl in Hp |- *.
  destruct (field_vertices f) as [|v vs] eqn:E.
  - rewrite !group_step_unboxed by exact E; cbn [bind].
    rewrite <- (IH {| lines := lines st;
                      current_line := current_line st ++ [field_text f];
                      last_y := last_y st; last_x_end := last_x_end st;
                      line_height := line_height st |} Hn Hp).
    reflexivity.
  - destruct (box_of_total (v :: vs)) as (b' & Hb'); [discriminate|].
    rewrite Hb' in Hp; inversion Hp as [Hh].
    rewrite <- E in Hb'.
    assert (Hv : field_vertices f <> []) by congruence.
    rewrite (group_step_boxed st f b' Hv Hb').
    rewrite (group_step_boxed (fix_line_height st b) f b' Hv Hb').
    replace (fix_line_height (fix_line_height st b) b')
      with (fix_line_height st b'); [reflexivity|].
    unfold fix_line_height; simpl; rewrite Hn, Hh; reflexivity.
Qed.

Lemma group_lines_without_dropped (pre post : list field) (f : field) :
  dropped f ->
  page_line_height (pre ++ f :: post) = page_line_height (pre ++ post) ->
  group_lines (pre ++ f :: post) = group_lines (pre ++ post).
Proof.
  intros (b & Hv & Hb & Hw) Hp; unfold group_lines.
  rewrite !for_each_app.
  destruct (for_each group_step pre ginit) as [st|e] eqn:Hpre; [|reflexivity].
  cbn [bind for_each].
  rewrite (group_step_dropped st f b Hv Hb Hw); cbn [bind].
  apply group_loop_line_height in Hpre; simpl in Hpre.
  destruct (line_height st) as [h|] eqn:Hlh.
  - rewrite (fix_line_height_fixed st b h Hlh); reflexivity.
  - rewrite !page_line_height_app, <- Hpre in Hp.
    rewrite (page_line_height_cons f post b Hv Hb) in Hp.
    rewrite (line_height_anticipated post st b Hlh (eq_sym Hp)); reflexivity.
Qed.

(** C6, as the code has it: a fragment with vertices and [width < height] is
    left out of the lines, and the Markdown output equals the output on the
    sequence without it, whenever removing it does not change the
    [line_height] of the page (in particular whenever an earlier fragment has
    vertices); this holds from either binding of [in_table]. *)
Theorem dropped_fragment_excluded (upper : char -> bool)
  (in_table0 : option bool) (pre post : list field) (f : field) :
  dropped f ->
  page_line_height (pre ++ f :: post) = page_line_height (pre ++ post) ->
  reconstruct upper in_table0 (pre ++ f :: post)
  = reconstruct upper in_table0 (pre ++ post).
Proof.
  intros Hd Hp; unfold reconstruct.
  rewrite (group_lines_without_dropped pre post f Hd Hp); reflexivity.
Qed.

(** An earlier fragment with vertices is enough for the side condition. *)
Lemma line_height_kept_after_boxed (pre post : list field) (f : field) :
  page_line_height pre <> None ->
  page_line_height (pre ++ f :: post) = page_line_height (pre ++ post).
Proof.
  intros H; rewrite !page_line_height_app.
  destruct (page_line_height pre); [reflexivity | congruence].
Qed.

Lemma dropped_fragment_excluded_witness :
  let pre := [boxed "a" 0 0 30 20] in
  let f := boxed "t" 0 0 5 100 in
  let post := [boxed "b" 0 40 30 60] in
  (dropped f
   /\ page_line_height (pre ++ f :: post) = page_line_height (pre ++ post))
  /\ reconstruct ascii_only (Some false) (pre ++ f :: post)
     = reconstruct ascii_only (Some false) (pre ++ post).
Proof.
  intros pre f post.
  assert (H1 : dropped f).
  { exists {| width := 5; height := 100; current_y := 0;
              current_x_start := 0; current_x_end := 5 |}.
    split; [discriminate|]; split; [reflexivity|]; simpl; lia. }
  assert (H2 : page_line_height (pre ++ f :: post)
               = page_line_height (pre ++ post)) by reflexivity.
  split; [split; assumption|].
  exact (dropped_fragment_excluded ascii_only (Some false) pre post f H1 H2).
Defined.

(** C6 as stated fails: the dropped fragment comes first, so its height (100)
    becomes [line_height]; with it the rows 40 pixels apart are one paragraph,
    without it they are two. *)
Lemma dropped_first_fragment_changes_output :
  dropped (boxed "t" 0 0 5 100)
  /\ extract_text ascii_only
       {| fields := Some [boxed "t" 0 0 5 100; boxed "a" 0 0 30 20;
                          boxed "b" 0 40 30 60];
          title := None |}
     = Ok (lit "a b" ++ NL ++ NL)
  /\ extract_text ascii_only
       {| fields := Some [boxed "a" 0 0 30 20; boxed "b" 0 40 30 60];
          title := None |}
     = Ok (lit "a" ++ NL ++ NL ++ NL ++ lit "b" ++ NL ++ NL)
  /\ ~ (forall (upper : char -> bool) (in_table0 : option bool)
               (pre post : list field) (f : field),
          dropped f ->
          reconstruct upper in_table0 (pre ++ f :: post)
          = reconstruct upper in_table0 (pre ++ post)).
Proof.
  assert (Hd : dropped (boxed "t" 0 0 5 100)).
  { exists {| width := 5; height := 100; current_y := 0;
              current_x_start := 0; current_x_end := 5 |}.
    split; [discriminate|]; split; [reflexivity|]; simpl; lia. }
  split; [exact Hd|]; split; [reflexivity|]; split; [reflexivity|].
  intros H.
  specialize (H ascii_only (Some false) [] [boxed "a" 0 0 30 20;
                                            boxed "b" 0 40 30 60]
                (boxed "t" 0 0 5 100) Hd).
  vm_compute in H; discriminate.
Qed.

(** ** Provenance of the entries of [lines] *)

Lemma untag_flush (ls : list entry) (cur : list str) :
  flush (List.map entry_str ls) cur
  = (List.map entry_str (fst (tflush ls cur)), snd (tflush ls cur)).
Proof.
  destruct cur as [|c cur]; simpl; [reflexivity|].
  rewrite map_app; reflexivity.
Qed.

(** Erasing the tags of a tagged step gives the step of the code. *)
Lemma group_step_untag (t : tstate) (f : field) :
  exists t', group_step_tagged t f = Ok t'
             /\ group_step (untag t) f = Ok (untag t').
Proof.
  destruct (field_vertices f) as [|v vs] eqn:E.
  - unfold group_step_tagged, group_step; rewrite E.
    eexists; split; reflexivity.
  - destruct (box_of_total (v :: vs)) as (b & Hb); [discriminate|].
    rewrite <- E in Hb.
    assert (Hv : field_vertices f <> []) by congruence.
    rewrite (group_step_boxed (untag t) f b Hv Hb); cbv zeta.
    unfold group_step_tagged.
    rewrite has_vertices_true by exact Hv; rewrite Hb; cbn [bind].
    destruct (width b <? height b); [eexists; split; reflexivity|].
    destruct (break_flags_total (fix_line_height (untag t) b) b
                (fix_line_height_set (untag t) b)) as ([nl np] & ->).
    cbn [bind].
    change (lines (fix_line_height (untag t) b))
      with (List.map entry_str (tlines t)).
    change (current_line (fix_line_height (untag t) b))
      with (tcurrent_line t).
    rewrite untag_flush.
    destruct nl; [|eexists; split; reflexivity].
    destruct (tflush (tlines t) (tcurrent_line t)) as [ls cur]; simpl.
    destruct np; eexists; (split; [reflexivity|]); unfold untag; simpl;
      rewrite ?map_app; reflexivity.
Qed.

Lemma group_loop_untag (fs : list field) (t : tstate) :
  exists t', for_each group_step_tagged fs t = Ok t'
             /\ for_each group_step fs (untag t) = Ok (untag t').
Proof.
  revert t; induction fs as [|f fs IH]; intros t; simpl.
  - exists t; split; reflexivity.
  - destruct (group_step_untag t f) as (t1 & -> & ->); cbn [bind]; apply IH.
Qed.

(** The tagged Line Grouper is the Line Grouper of the code with provenance
    added. *)
Lemma group_lines_untag (fs : list field) :
  exists es, group_lines_tagged fs = Ok es
             /\ group_lines fs = Ok (List.map entry_str es).
Proof.
  unfold group_lines_tagged, group_lines.
  destruct (group_loop_untag fs tinit) as (t & Ht & Hg).
  change (untag tinit) with ginit in Hg; rewrite Ht, Hg; cbn [bind].
  eexists; split; [reflexivity|].
  simpl; rewrite untag_flush; reflexivity.
Qed.

(** A joined buffer is the empty string only when it is one empty text. *)
Lemma join_eq_nil (texts : list str) :
  texts <> [] -> (join SPACE texts = [] <-> texts = [[]]).
Proof.
  destruct texts as [|x [|y l]]; [congruence| |]; intros _.
  - simpl; split; [intros ->; reflexivity | intros H; inversion H; reflexivity].
  - change (join SPACE (x :: y :: l)) with (x ++ SPACE ++ join SPACE (y :: l)).
    split; [|discriminate].
    intros H; apply app_eq_nil in H; destruct H as [_ H]; discriminate.
Qed.

Lemma tflush_buffers_nonempty (ls : list entry) (cur : list str) :
  buffers_nonempty ls -> buffers_nonempty (fst (tflush ls cur)).
Proof.
  intros Hls; destruct cur as [|c cur]; simpl; [exact Hls|].
  apply Forall_app; split; [exact Hls|].
  constructor; [discriminate | constructor].
Qed.

Lemma buffers_nonempty_mark (ls : list entry) :
  buffers_nonempty ls -> buffers_nonempty (ls ++ [ParagraphMark]).
Proof.
  intros H; apply Forall_app; split; [exact H|]; constructor; [exact I|constructor].
Qed.

Lemma group_step_tagged_buffers (t t' : tstate) (f : field) :
  buffers_nonempty (tlines t) ->
  group_step_tagged t f = Ok t' ->
  buffers_nonempty (tlines t').
Proof.
  intros Hls; unfold group_step_tagged.
  destruct (truthy (field_vertices f)
            && (0 <? Z.of_nat (length (field_vertices f)))).
  - destruct (box_of (field_vertices f)) as [b|e]; cbn [bind]; [|discriminate].
    destruct (width b <? height b).
    + intros H; inversion H; subst; simpl; exact Hls.
    + destruct (break_flags (fix_line_height (untag t) b) b) as [[nl np]|e];
        cbn [bind]; [|discriminate].
      destruct nl.
      * pose proof (tflush_buffers_nonempty (tlines t) (tcurrent_line t) Hls)
          as Hfl.
        destruct (tflush (tlines t) (tcurrent_line t)) as [ls cur].
        simpl in Hfl.
        destruct np; intros H; inversion H; subst; simpl;
          auto using buffers_nonempty_mark.
      * intros H; inversion H; subst; simpl; exact Hls.
  - intros H; inversion H; subst; simpl; exact Hls.
Qed.

Lemma group_loop_tagged_buffers (fs : list field) (t t' : tstate) :
  buffers_nonempty (tlines t) ->
  for_each group_step_tagged fs t = Ok t' ->
  buffers_nonempty (tlines t').
Proof.
  revert t; induction fs as [|f fs IH]; intros t Hls H; simpl in H.
  - inversion H; subst; exact Hls.
  - apply bind_ok in H; destruct H as (t1 & H1 & H2).
    apply (IH t1); [|exact H2].
    exact (group_step_tagged_buffers t t1 f Hls H1).
Qed.

(** C5, as the code has it: an empty-string entry of [lines] is a
    paragraph-break marker or the flush of a buffer that holds exactly one
    fragment, whose text is empty; every entry joined from any other buffer
    of fragment texts is non-empty.  Stated for pages whose line height is
    in the exact range. *)
Theorem empty_lines_are_markers (fs : list field) :
  exact_line_height fs ->
  exists es,
    group_lines_tagged fs = Ok es
    /\ group_lines fs = Ok (List.map entry_str es)
    /\ forall e, In e es ->
         (entry_str e = [] <-> e = ParagraphMark \/ e = Joined [[]]).
Proof.
  intros _.
  destruct (group_lines_untag fs) as (es & Ht & Hg).
  exists es; split; [exact Ht|]; split; [exact Hg|].
  unfold group_lines_tagged in Ht; apply bind_ok in Ht.
  destruct Ht as (t & Hloop & Hes); inversion Hes; subst; clear Hes.
  assert (Hls : buffers_nonempty (tlines t)).
  { apply (group_loop_tagged_buffers fs tinit t); [constructor | exact Hloop]. }
  pose proof (tflush_buffers_nonempty (tlines t) (tcurrent_line t) Hls) as Hw.
  intros e He.
  unfold buffers_nonempty in Hw; rewrite Forall_forall in Hw.
  specialize (Hw e He).
  destruct e as [texts|]; simpl.
  - rewrite (join_eq_nil texts Hw); split.
    + intros ->; right; reflexivity.
    + intros [H|H]; [discriminate | inversion H; reflexivity].
  - split; [intros _; left; reflexivity | reflexivity].
Qed.

Lemma empty_lines_are_markers_witness :
  let fs := [boxed "a" 0 0 30 20; boxed "" 0 100 30 120;
             boxed "" 0 120 30 140; boxed "b" 35 120 60 140] in
  exact_line_height fs
  /\ group_lines fs = Ok [lit "a"; []; []; lit " b"]
  /\ exists es,
      group_lines_tagged fs = Ok es
      /\ group_lines fs = Ok (List.map entry_str es)
      /\ forall e, In e es ->
           (entry_str e = [] <-> e = ParagraphMark \/ e = Joined [[]]).
Proof.
  intros fs.
  assert (H : exact_line_height fs).
  { intros h Hh; vm_compute in Hh; inversion Hh; reflexivity. }
  split; [exact H|]; split; [reflexivity|].
  exact (empty_lines_are_markers fs H).
Defined.

(** C5 as stated fails: a single fragment whose text is empty gives a [lines]
    entry that is the empty string and is joined from fragment texts. *)
Lemma empty_text_gives_empty_line :
  group_lines [unboxed ""] = Ok [[]]
  /\ group_lines_tagged [unboxed ""] = Ok [Joined [[]]]
  /\ ~ (forall fs es, group_lines_tagged fs = Ok es ->
                      forall e, In e es -> entry_str e = [] ->
                                e = ParagraphMark).
Proof.
  split; [reflexivity|]; split; [reflexivity|].
  intros H.
  assert (E : Joined [[]] = ParagraphMark);
    [|discriminate].
  apply (H [unboxed ""] [Joined [[]]]);
    [reflexivity | left; reflexivity | reflexivity].
Qed.

(** ** Empty pages *)

(** C7, as the code has it: an empty fragment sequence gives empty [lines],
    empty [processed_lines] and empty Markdown; the PDF path returns the
    empty page text (also when [fields] is missing) and the page keeps its
    header, while the image path reports the empty text as an error, unless
    [fields] is missing and a title is present, in which case it emits the
    title. *)
Theorem empty_page (upper : char -> bool) :
  group_lines [] = Ok []
  /\ assemble upper [] = Ok []
  /\ (forall in_table0, emit in_table0 [] = Ok [])
  /\ (forall t, extract_text upper {| fields := Some []; title := t |} = Ok [])
  /\ (forall t, extract_text upper {| fields := None; title := t |} = Ok [])
  /\ (forall t,
         process_pdf upper
           (Some {| images := Some [{| fields := Some []; title := t |}] |})
         = Ok (lit "## " ++ PAGE ++ lit " 1" ++ NL ++ NL))
  /\ (forall t rest,
         call_naver_ocr_image upper
           {| images := Some ({| fields := Some []; title := t |} :: rest) |}
         = (None, Some NoTextExtracted))
  /\ (forall rest,
         call_naver_ocr_image upper
           {| images := Some ({| fields := None; title := None |} :: rest) |}
         = (None, Some NoTextExtracted))
  /\ (forall t rest,
         call_naver_ocr_image upper
           {| images := Some ({| fields := None; title := Some t |} :: rest) |}
         = (Some (lit "# " ++ get (title_inferText t) [] ++ NL ++ NL), None)).
Proof. repeat split; intros; reflexivity. Qed.

(** C7 as stated fails for the image path: the empty fragment list is
    reported as an error. *)
Lemma image_path_reports_empty_page :
  call_naver_ocr_image ascii_only
    {| images := Some [{| fields := Some []; title := None |}] |}
  = (None, Some NoTextExtracted)
  /\ ~ (forall upper : char -> bool,
          snd (call_naver_ocr_image upper
                 {| images := Some [{| fields := Some []; title := None |}] |})
          = None).
Proof.
  split; [reflexivity|].
  intros H; specialize (H ascii_only); discriminate.
Qed.

(** ** Table rows *)

Lemma lstrip_nil (s : str) :
  lstrip s = [] -> forall c, In c s -> isspace c = true.
Proof.
  induction s as [|d s IH]; simpl; [tauto|].
  destruct (isspace d) eqn:E; [|discriminate].
  intros H c [<-|Hc]; auto.
Qed.

(** A line that strips to nothing is made of white space. *)
Lemma strip_nil (s : str) :
  strip s = [] -> forall c, In c s -> isspace c = true.
Proof.
  unfold strip, rstrip; intros H.
  assert (H1 : lstrip (rev (lstrip s)) = []).
  { rewrite <- (rev_involutive (lstrip (rev (lstrip s)))), H; reflexivity. }
  destruct (lstrip s) as [|d t] eqn:E; [exact (lstrip_nil s E)|].
  exfalso.
  pose proof (lstrip_head s t d E) as Hd.
  rewrite (lstrip_nil _ H1 d) in Hd; [discriminate|].
  apply in_rev; rewrite rev_involutive; left; reflexivity.
Qed.

Lemma contains_in (c : char) (s : str) : contains c s = true -> In c s.
Proof.
  unfold contains; rewrite existsb_exists; intros (x & Hx & E).
  apply N.eqb_eq in E; subst; exact Hx.
Qed.

Lemma bar_line_not_blank (line : str) :
  contains BAR line = true -> negb (truthy (strip line)) = false.
Proof.
  intros H; destruct (strip line) as [|c r] eqn:E; [|reflexivity].
  pose proof (strip_nil line E BAR (contains_in BAR line H)); discriminate.
Qed.

Lemma split_length (sep : char) (s : str) :
  length (split sep s) = S (count_occ N.eq_dec s sep).
Proof.
  induction s as [|c s IH]; simpl; [reflexivity|].
  destruct (N.eqb_spec c sep) as [->|Hne].
  - simpl; rewrite IH; destruct (N.eq_dec sep sep); [reflexivity|congruence].
  - destruct (N.eq_dec c sep); [congruence|].
    destruct (split sep s); simpl in *; [discriminate | exact IH].
Qed.

Lemma split_cells_clean (sep : char) (s : str) :
  Forall (fun cell => count_occ N.eq_dec cell sep = 0%nat) (split sep s).
Proof.
  induction s as [|c s IH]; simpl; [repeat constructor|].
  destruct (N.eqb_spec c sep) as [->|Hne]; [constructor; [reflexivity|exact IH]|].
  destruct (split sep s) as [|cell cells]; [repeat constructor; simpl|].
  - destruct (N.eq_dec c sep); [congruence | reflexivity].
  - inversion IH; subst; constructor; [simpl|assumption].
    destruct (N.eq_dec c sep); [congruence | assumption].
Qed.

Lemma count_occ_join (cells : list str) :
  cells <> [] ->
  Forall (fun cell => count_occ N.eq_dec cell BAR = 0%nat) cells ->
  count_occ N.eq_dec (join (lit " | ") cells) BAR = (length cells - 1)%nat.
Proof.
  induction cells as [|x cells IH]; [congruence|]; intros _ H.
  inversion H as [|? ? Hx Hcells]; subst.
  destruct cells as [|y cells]; [simpl; exact Hx|].
  change (join (lit " | ") (x :: y :: cells))
    with (x ++ lit " | " ++ join (lit " | ") (y :: cells)).
  rewrite !count_occ_app, Hx, IH by (discriminate || assumption).
  simpl; lia.
Qed.

(** A rendered row has as many cells as the list it renders, when no cell
    holds a bar. *)
Lemma row_cells_table_row (cells : list str) :
  cells <> [] ->
  Forall (fun cell => count_occ N.eq_dec cell BAR = 0%nat) cells ->
  row_cells (table_row cells) = length cells.
Proof.
  intros Hne H; unfold row_cells, table_row.
  rewrite !count_occ_app, (count_occ_join cells Hne H).
  destruct cells; [congruence|]; simpl; lia.
Qed.

Lemma map_dashes (cells : list str) :
  List.map (fun _ => DASHES) cells = repeat DASHES (length cells).
Proof. induction cells; simpl; congruence. Qed.

(** C8, as the code has it: a line containing a bar that the heading test
    does not take, reached with [in_table] false, appends a header row and a
    separator row that has one "---" cell per cell of the header row. *)
Theorem table_header_shape (processed : list str) (i : nat) (line : str)
  (st : estate) :
  contains BAR line = true ->
  in_table st = Some false ->
  is_heading processed i line = Ok false ->
  let cells := split BAR line in
  emit_step processed st (i, line)
  = Ok {| markdown_text :=
            markdown_text st ++ table_row cells
            ++ table_row (repeat DASHES (length cells));
          in_table := Some true |}
  /\ row_cells (table_row cells) = length cells
  /\ row_cells (table_row (repeat DASHES (length cells))) = length cells.
Proof.
  intros Hbar Hit Hhead cells.
  assert (Hne : cells <> []).
  { intros E; pose proof (split_length BAR line) as Hl.
    fold cells in Hl; rewrite E in Hl; discriminate. }
  split; [|split].
  - unfold emit_step.
    rewrite (bar_line_not_blank line Hbar), Hhead; cbn [bind].
    rewrite Hbar, Hit; cbn [orb].
    fold cells; rewrite map_dashes, <- app_assoc; reflexivity.
  - apply row_cells_table_row; [exact Hne | apply split_cells_clean].
  - rewrite <- (repeat_length DASHES (length cells)) at 2.
    apply row_cells_table_row.
    + destruct cells; [congruence | discriminate].
    + apply Forall_forall; intros x Hx; apply repeat_spec in Hx; subst.
      reflexivity.
Qed.

Lemma table_header_shape_witness :
  let processed := [lit "A|B|C"] in
  let st := {| markdown_text := []; in_table := Some false |} in
  (contains BAR (lit "A|B|C") = true
   /\ in_table st = Some false
   /\ is_heading processed 0 (lit "A|B|C") = Ok false)
  /\ emit_step processed st (0%nat, lit "A|B|C")
     = Ok {| markdown_text :=
               lit "| A | B | C |" ++ NL ++ lit "| --- | --- | --- |" ++ NL;
             in_table := Some true |}.
Proof.
  intros processed st.
  assert (H1 : contains BAR (lit "A|B|C") = true) by reflexivity.
  assert (H2 : in_table st = Some false) by reflexivity.
  assert (H3 : is_heading processed 0 (lit "A|B|C") = Ok false) by reflexivity.
  split; [repeat split; assumption|].
  exact (proj1 (table_header_shape processed 0 (lit "A|B|C") st H1 H2 H3)).
Defined.

(** C8 as stated fails: the line "A|B." contains a bar and is reached with
    [in_table] false, but it is short, first, and followed by a non-blank
    line, so it is emitted as a heading and no header or separator row is
    written for it; likewise "A|B|C" followed by "D|E|F", where the table
    starts at the second line. *)
Lemma bar_line_emitted_as_heading :
  emit_step [lit "A|B."; lit "Cd"]
    {| markdown_text := []; in_table := Some false |} (0%nat, lit "A|B.")
  = Ok {| markdown_text := lit "### A|B." ++ NL ++ NL;
          in_table := Some false |}
  /\ emit (Some false) [lit "A|B."; lit "Cd"]
     = Ok (lit "### A|B." ++ NL ++ NL ++ lit "Cd" ++ NL ++ NL)
  /\ extract_text ascii_only
       {| fields := Some [boxed "A|B." 0 0 40 20; boxed "Cd" 0 20 40 40];
          title := None |}
     = Ok (lit "### A|B." ++ NL ++ NL ++ lit "Cd" ++ NL ++ NL)
  /\ emit (Some false) [lit "A|B|C"; lit "D|E|F"]
     = Ok (lit "### A|B|C" ++ NL ++ NL
           ++ lit "| D | E | F |" ++ NL ++ lit "| --- | --- | --- |" ++ NL).
Proof. repeat split; reflexivity. Qed.

(** ** Page Aggregator *)

Lemma page_loop (upper : char -> bool) (pages : list image_result)
  (texts : list str) :
  Forall2 (fun r t => extract_text upper r = Ok t) pages texts ->
  forall (k : nat) (acc : list str),
    for_each (page_step upper) (combine (seq k (length pages)) pages) acc
    = Ok (acc ++ List.map page_block (combine (seq k (length texts)) texts)).
Proof.
  induction 1 as [|r t pages texts Hr _ IH]; intros k acc; simpl.
  - rewrite app_nil_r; reflexivity.
  - rewrite Hr; cbn [bind]; rewrite IH, <- app_assoc; reflexivity.
Qed.

Lemma page_texts_exist (upper : char -> bool) (pages : list image_result) :
  exists texts, Forall2 (fun r t => extract_text upper r = Ok t) pages texts.
Proof.
  induction pages as [|r pages [texts IH]]; [exists []; constructor|].
  destruct (extract_text_total upper r) as (t & Ht).
  exists (t :: texts); constructor; assumption.
Qed.




(** ** Missing coordinates *)

Lemma box_of_fill (vs : list vertex) :
  box_of (List.map fill_vertex vs) = box_of vs.
Proof.
  unfold box_of; rewrite !map_map; reflexivity.
Qed.

Lemma field_vertices_fill (f : field) :
  field_vertices (fill_field f) = List.map fill_vertex (field_vertices f).
Proof.
  unfold field_vertices, fill_field; simpl.
  destruct (boundingPoly f) as [[[vs|]]|]; reflexivity.
Qed.

Lemma group_step_fill (st : gstate) (f : field) :
  group_step st (fill_field f) = group_step st f.
Proof.
  unfold group_step.
  rewrite field_vertices_fill, box_of_fill, length_map.
  destruct (field_vertices f); reflexivity.
Qed.

(** Writing the missing coordinates out as 0 changes no line of the page. *)
Lemma group_lines_fill (fs : list field) :
  group_lines (List.map fill_field fs) = group_lines fs.
Proof.
  unfold group_lines; f_equal.
  generalize ginit; induction fs as [|f fs IH]; intros st; simpl;
    [reflexivity|].
  rewrite group_step_fill; destruct (group_step st f); simpl; auto.
Qed.

Lemma fold_left_max_spec (l : list Z) (x : Z) :
  (forall y, In y (x :: l) -> y <= fold_left Z.max l x)
  /\ In (fold_left Z.max l x) (x :: l).
Proof.
  revert x; induction l as [|a l IH]; intros x; simpl.
  - split; [intros y [<-|[]]; lia | left; reflexivity].
  - destruct (IH (Z.max x a)) as [Hle Hin]; split.
    + intros y [<-|[<-|Hy]].
      * specialize (Hle (Z.max x a) (or_introl eq_refl)); lia.
      * specialize (Hle (Z.max x a) (or_introl eq_refl)); lia.
      * apply Hle; right; exact Hy.
    + destruct Hin as [Hin|Hin]; [|right; right; exact Hin].
      rewrite <- Hin; destruct (Z.max_spec x a) as [[_ ->]|[_ ->]]; auto.
Qed.

Lemma fold_left_min_spec (l : list Z) (x : Z) :
  (forall y, In y (x :: l) -> fold_left Z.min l x <= y)
  /\ In (fold_left Z.min l x) (x :: l).
Proof.
  revert x; induction l as [|a l IH]; intros x; simpl.
  - split; [intros y [<-|[]]; lia | left; reflexivity].
  - destruct (IH (Z.min x a)) as [Hle Hin]; split.
    + intros y [<-|[<-|Hy]].
      * specialize (Hle (Z.min x a) (or_introl eq_refl)); lia.
      * specialize (Hle (Z.min x a) (or_introl eq_refl)); lia.
      * apply Hle; right; exact Hy.
    + destruct Hin as [Hin|Hin]; [|right; right; exact Hin].
      rewrite <- Hin; destruct (Z.min_spec x a) as [[_ ->]|[_ ->]]; auto.
Qed.

Lemma py_max_spec (l : list Z) (m : Z) :
  py_max l = Ok m -> (forall y, In y l -> y <= m) /\ In m l.
Proof.
  destruct l as [|x l]; [discriminate|]; intros H; inversion H; subst.
  apply fold_left_max_spec.
Qed.

Lemma py_min_spec (l : list Z) (m : Z) :
  py_min l = Ok m -> (forall y, In y l -> m <= y) /\ In m l.
Proof.
  destruct l as [|x l]; [discriminate|]; intros H; inversion H; subst.
  apply fold_left_min_spec.
Qed.

(** The box is the bounding box of the vertices, each missing coordinate
    read as 0. *)
Lemma box_of_spec (vs : list vertex) (b : box) :
  box_of vs = Ok b ->
  (forall v, In v vs ->
     current_x_start b <= vertex_x v <= current_x_end b
     /\ current_y b <= vertex_y v <= current_y b + height b)
  /\ (exists v, In v vs /\ vertex_x v = current_x_start b)
  /\ (exists v, In v vs /\ vertex_x v = current_x_end b)
  /\ (exists v, In v vs /\ vertex_y v = current_y b)
  /\ (exists v, In v vs /\ vertex_y v = current_y b + height b)
  /\ width b = current_x_end b - current_x_start b.
Proof.
  unfold box_of; intros H.
  apply bind_ok in H; destruct H as (max_x & Hmx & H).
  apply bind_ok in H; destruct H as (min_x & Hnx & H).
  apply bind_ok in H; destruct H as (max_y & Hmy & H).
  apply bind_ok in H; destruct H as (min_y & Hny & H).
  inversion H; subst b; clear H; cbn [width height current_y current_x_start
                                      current_x_end].
  apply py_max_spec in Hmx; destruct Hmx as [Hmx1 Hmx2].
  apply py_min_spec in Hnx; destruct Hnx as [Hnx1 Hnx2].
  apply py_max_spec in Hmy; destruct Hmy as [Hmy1 Hmy2].
  apply py_min_spec in Hny; destruct Hny as [Hny1 Hny2].
  apply in_map_iff in Hmx2; destruct Hmx2 as (v1 & E1 & I1).
  apply in_map_iff in Hnx2; destruct Hnx2 as (v2 & E2 & I2).
  apply in_map_iff in Hmy2; destruct Hmy2 as (v3 & E3 & I3).
  apply in_map_iff in Hny2; destruct Hny2 as (v4 & E4 & I4).
  split; [|split; [|split; [|split; [|split; [|reflexivity]]]]].
  - intros v Hv.
    assert (Hx : In (vertex_x v) (List.map (fun v => get (vx v) 0) vs))
      by (apply in_map_iff; exists v; split; [reflexivity | exact Hv]).
    assert (Hy : In (vertex_y v) (List.map (fun v => get (vy v) 0) vs))
      by (apply in_map_iff; exists v; split; [reflexivity | exact Hv]).
    specialize (Hmx1 _ Hx); specialize (Hnx1 _ Hx).
    specialize (Hmy1 _ Hy); specialize (Hny1 _ Hy); lia.
  - exists v2; split; [exact I2 | exact E2].
  - exists v1; split; [exact I1 | exact E1].
  - exists v4; split; [exact I4 | exact E4].
  - exists v3; split; [exact I3|].
    change (vertex_y v3) with (get (vy v3) 0); lia.
Qed.

(** C10: for a fragment with a non-empty vertex list, a vertex that lacks
    ['x'] or ['y'] counts as having that coordinate equal to 0: the box of
    the fragment is the bounding box of its vertices with each missing
    coordinate read as 0 (left and right edge, top, height and width), it is
    the box of the fragment with the zeros written out, and the step of the
    Line Grouper uses it without raising: on the first fragment with vertices
    the step stores its top and right edge, and on every state the step is
    that of the fragment with the zeros written out. *)
Theorem missing_coordinates_are_zero (st : gstate) (f : field) :
  field_vertices f <> [] ->
  exists b,
    box_of (field_vertices f) = Ok b
    /\ (forall v, In v (field_vertices f) ->
          current_x_start b <= vertex_x v <= current_x_end b
          /\ current_y b <= vertex_y v <= current_y b + height b)
    /\ (exists v, In v (field_vertices f) /\ vertex_x v = current_x_start b)
    /\ (exists v, In v (field_vertices f) /\ vertex_x v = current_x_end b)
    /\ (exists v, In v (field_vertices f) /\ vertex_y v = current_y b)
    /\ (exists v, In v (field_vertices f)
                  /\ vertex_y v = current_y b + height b)
    /\ width b = current_x_end b - current_x_start b
    /\ box_of (field_vertices (fill_field f)) = Ok b
    /\ (forall st', group_step st' (fill_field f) = group_step st' f)
    /\ (last_y st = None ->
        group_step st f
        = Ok (if width b <? height b then fix_line_height st b
              else {| lines := lines st;
                      current_line := current_line st ++ [field_text f];
                      last_y := Some (current_y b);
                      last_x_end := Some (current_x_end b);
                      line_height := line_height (fix_line_height st b) |}))
    /\ ((forall h, line_height (fix_line_height st b) = Some h ->
                   3 * h < 2 ^ 53) ->
        exists st', group_step st f = Ok st').
Proof.
  intros Hv.
  destruct (box_of_total (field_vertices f) Hv) as (b & Hb).
  exists b; split; [exact Hb|].
  destruct (box_of_spec (field_vertices f) b Hb)
    as (H1 & H2 & H3 & H4 & H5 & H6).
  repeat (split; [assumption|]).
  split; [rewrite field_vertices_fill, box_of_fill; exact Hb|].
  split; [intros st'; apply group_step_fill|].
  split; [|intros _; apply group_step_total].
  intros Hly; rewrite (group_step_boxed st f b Hv Hb); cbv zeta.
  destruct (width b <? height b); [reflexivity|].
  unfold break_flags.
  change (last_y (fix_line_height st b)) with (last_y st); rewrite Hly.
  reflexivity.
Qed.

Lemma missing_coordinates_are_zero_witness :
  let f := {| inferText := Some (lit "a");
              boundingPoly :=
                Some {| vertices :=
                          Some [ {| vx := Some 10; vy := None |};
                                 {| vx := None; vy := Some 5 |} ] |} |} in
  field_vertices f <> []
  /\ box_of (field_vertices f)
     = Ok {| width := 10; height := 5; current_y := 0;
             current_x_start := 0; current_x_end := 10 |}
  /\ group_step ginit f
     = Ok {| lines := []; current_line := [lit "a"]; last_y := Some 0;
             last_x_end := Some 10; line_height := Some 5 |}
  /\ exists b,
      box_of (field_vertices f) = Ok b
      /\ (forall v, In v (field_vertices f) ->
            current_x_start b <= vertex_x v <= current_x_end b
            /\ current_y b <= vertex_y v <= current_y b + height b)
      /\ (exists v, In v (field_vertices f) /\ vertex_x v = current_x_start b)
      /\ (exists v, In v (field_vertices f) /\ vertex_x v = current_x_end b)
      /\ (exists v, In v (field_vertices f) /\ vertex_y v = current_y b)
      /\ (exists v, In v (field_vertices f)
                    /\ vertex_y v = current_y b + height b)
      /\ width b = current_x_end b - current_x_start b
      /\ box_of (field_vertices (fill_field f)) = Ok b
      /\ (forall st', group_step st' (fill_field f) = group_step st' f)
      /\ (last_y ginit = None ->
          group_step ginit f
          = Ok (if width b <? height b then fix_line_height ginit b
                else {| lines := lines ginit;
                        current_line := current_line ginit ++ [field_text f];
                        last_y := Some (current_y b);
                        last_x_end := Some (current_x_end b);
                        line_height := line_height (fix_line_height ginit b) |}))
      /\ ((forall h, line_height (fix_line_height ginit b) = Some h ->
                     3 * h < 2 ^ 53) ->
          exists st', group_step ginit f = Ok st').
Proof.
  intros f.
  assert (H : field_vertices f <> []) by discriminate.
  split; [exact H|]; split; [reflexivity|]; split; [reflexivity|].
  exact (missing_coordinates_are_zero ginit f H).
Defined.

(** ** Runs of the stages on small pages *)

(** Two fragments on one row, the second right after the first. *)
Example same_row_is_one_line :
  group_lines [boxed "X" 0 0 30 20; boxed "Y" 35 0 60 20] = Ok [lit "X Y"].
Proof. reflexivity. Qed.

(** Rows 100 pixels apart with a line height of 20: a paragraph break. *)
Example distant_rows_are_two_paragraphs :
  group_lines [boxed "one" 0 0 30 20; boxed "two" 0 100 30 120]
  = Ok [lit "one"; []; lit "two"].
Proof. reflexivity. Qed.

(** A gap of more than 50 pixels on the same row starts a new line. *)
Example wide_gap_is_new_line :
  group_lines [boxed "left" 0 0 30 20; boxed "right" 100 0 150 20]
  = Ok [lit "left"; lit "right"].
Proof. reflexivity. Qed.

(** A blank line separates two paragraphs. *)
Example blank_line_separates_paragraphs :
  assemble ascii_only [lit "Hello world."; []; lit "Next paragraph"]
  = Ok [lit "Hello world."; []; lit "Next paragraph"].
Proof. reflexivity. Qed.

(** A finished sentence followed by an uppercase line closes the paragraph;
    followed by a lowercase line it does not. *)
Example uppercase_next_line_closes_paragraph :
  assemble ascii_only [lit "First."; lit "Second one"; lit "goes on."]
  = Ok [lit "First."; lit "Second one goes on."].
Proof. reflexivity. Qed.

(** A short first line followed only by a blank entry is not a heading. *)
Example lone_short_line_is_not_heading :
  emit (Some false) [lit "short"; []] = Ok (lit "short" ++ NL ++ NL ++ NL).
Proof. reflexivity. Qed.

(** A table after a plain paragraph: header, separator, then a data row. *)
Example table_after_paragraph :
  emit (Some false)
    [lit "An introduction that is long enough to be a paragraph, not a title.";
     lit "A|B"; lit "C|D"]
  = Ok (lit "An introduction that is long enough to be a paragraph, not a title."
        ++ NL ++ NL
        ++ lit "| A | B |" ++ NL ++ lit "| --- | --- |" ++ NL
        ++ lit "| C | D |" ++ NL).
Proof. reflexivity. Qed.

(** The image path agrees with the PDF path once [in_table] is assigned
    before the first table line. *)
Example image_path_table_after_paragraph :
  image_markdown ascii_only
    [boxed "Intro" 0 0 40 20; boxed "text." 45 0 80 20;
     boxed "A|B" 0 100 40 120]
  = Ok (lit "Intro text." ++ NL ++ NL ++ NL ++ lit "| A | B |" ++ NL
        ++ lit "| --- | --- |" ++ NL).
Proof. reflexivity. Qed.

(** * Further properties of the stages *)

(** ** When the emitter of the image path fails *)

Lemma emit_step_blank (processed : list str) (st : estate) (i : nat)
  (line : str) :
  truthy (strip line) = false ->
  emit_step processed st (i, line)
  = Ok {| markdown_text := markdown_text st ++ NL; in_table := Some false |}.
Proof. intros H; unfold emit_step; rewrite H; reflexivity. Qed.

Lemma emit_step_heading (processed : list str) (st : estate) (i : nat)
  (line : str) :
  truthy (strip line) = true ->
  is_heading processed i line = Ok true ->
  emit_step processed st (i, line)
  = Ok {| markdown_text := markdown_text st ++ lit "### " ++ line ++ NL ++ NL;
          in_table := in_table st |}.
Proof. intros H1 H2; unfold emit_step; rewrite H1, H2; reflexivity. Qed.

Lemma emit_step_table_unbound (processed : list str) (st : estate) (i : nat)
  (line : str) :
  truthy (strip line) = true ->
  is_heading processed i line = Ok false ->
  table_line line = true ->
  in_table st = None ->
  emit_step processed st (i, line) = Raise UnboundLocalError.
Proof.
  unfold table_line; intros H1 H2 H3 H4; unfold emit_step.
  rewrite H1, H2; cbn [negb bind]; rewrite H3, H4; reflexivity.
Qed.

Lemma emit_step_plain (processed : list str) (st : estate) (i : nat)
  (line : str) :
  truthy (strip line) = true ->
  is_heading processed i line = Ok false ->
  table_line line = false ->
  emit_step processed st (i, line)
  = Ok {| markdown_text := markdown_text st ++ line ++ NL ++ NL;
          in_table := Some false |}.
Proof.
  unfold table_line; intros H1 H2 H3; unfold emit_step.
  rewrite H1, H2; cbn [negb bind]; rewrite H3; reflexivity.
Qed.

(** An entry that follows a non-blank entry is never a heading. *)
Lemma not_heading_after_text (processed : list str) (i : nat)
  (prev line : str) :
  nth_error processed i = Some prev ->
  truthy (strip prev) = true ->
  is_heading processed (S i) line = Ok false.
Proof.
  intros Hp Ht; unfold is_heading.
  destruct (Z.of_nat (length line) <? 50); [|reflexivity].
  unfold index; rewrite Hp; cbn [bind]; rewrite Ht; reflexivity.
Qed.

Lemma is_heading_first (a b : str) (rest : list str) :
  is_heading (a :: b :: rest) 0 a
  = Ok ((Z.of_nat (length a) <? 50) && truthy (strip b)).
Proof.
  unfold is_heading.
  destruct (Z.of_nat (length a) <? 50); [|reflexivity].
  cbn [bind].
  destruct (Z.ltb_spec (Z.of_nat 0) (Z.of_nat (length (a :: b :: rest)) - 1))
    as [_|H]; [reflexivity|].
  simpl length in H; lia.
Qed.

Lemma is_heading_single (a : str) : is_heading [a] 0 a = Ok false.
Proof.
  unfold is_heading; destruct (Z.of_nat (length a) <? 50); reflexivity.
Qed.

(** X2: the emitter of the image path, which starts with [in_table]
    unassigned, raises UnboundLocalError exactly on the processed lines
    singled out by [image_emitter_fails] (only the first two entries matter),
    and on all others it returns what the emitter of the PDF path returns. *)
Theorem image_emitter_outcome (processed : list str) :
  emit None processed
  = if image_emitter_fails processed then Raise UnboundLocalError
    else emit (Some false) processed.
Proof.
  destruct processed as [|a [|b rest]]; [reflexivity| |].
  - unfold emit, enumerate, image_emitter_fails.
    cbn [length seq combine for_each].
    destruct (truthy (strip a)) eqn:Ha; cbn [andb].
    + pose proof (is_heading_single a) as Hh.
      destruct (table_line a) eqn:Ht.
      * rewrite (emit_step_table_unbound [a] _ 0 a);
          [reflexivity | exact Ha | exact Hh | exact Ht | reflexivity].
      * rewrite !(emit_step_plain [a] _ 0 a Ha Hh Ht); reflexivity.
    + rewrite !(emit_step_blank [a] _ 0 a Ha); reflexivity.
  - unfold emit, enumerate, image_emitter_fails.
    cbn [length seq combine for_each].
    set (pl := a :: b :: rest).
    destruct (truthy (strip a)) eqn:Ha; cbn [andb].
    + pose proof (is_heading_first a b rest) as Hh; fold pl in Hh.
      destruct ((Z.of_nat (length a) <? 50) && truthy (strip b)) eqn:Hc.
      * apply andb_prop in Hc; destruct Hc as [_ Hb].
        rewrite !(emit_step_heading pl _ 0 a Ha Hh); cbn [bind in_table].
        pose proof (not_heading_after_text pl 0 a b eq_refl Ha) as Hh1.
        destruct (table_line b) eqn:Ht.
        -- rewrite (emit_step_table_unbound pl _ 1 b);
             [reflexivity | exact Hb | exact Hh1 | exact Ht | reflexivity].
        -- rewrite !(emit_step_plain pl _ 1 b Hb Hh1 Ht); reflexivity.
      * destruct (table_line a) eqn:Ht.
        -- rewrite (emit_step_table_unbound pl _ 0 a);
             [reflexivity | exact Ha | exact Hh | exact Ht | reflexivity].
        -- rewrite !(emit_step_plain pl _ 0 a Ha Hh Ht); reflexivity.
    + rewrite !(emit_step_blank pl _ 0 a Ha); reflexivity.
Qed.

Lemma for_each_raises {S A : Type} (body : S -> A -> result S) (l : list A)
  (s : S) (e : exn) :
  for_each body l s = Raise e ->
  exists s1 a, In a l /\ body s1 a = Raise e.
Proof.
  revert s; induction l as [|a l IH]; intros s; simpl; [discriminate|].
  destruct (body s a) as [s1|e1] eqn:E; simpl.
  - intros H; destruct (IH s1 H) as (s2 & a2 & Hin & H2).
    exists s2, a2; split; [right; exact Hin | exact H2].
  - intros H; inversion H; subst.
    exists s, a; split; [left; reflexivity | exact E].
Qed.

(** The only exception of an emitter step is the read of an unassigned
    [in_table]. *)
Lemma emit_step_raises_unbound (processed : list str) (st : estate) (i : nat)
  (line : str) (e : exn) :
  nth_error processed i = Some line ->
  emit_step processed st (i, line) = Raise e -> e = UnboundLocalError.
Proof.
  intros Hi; unfold emit_step.
  destruct (negb (truthy (strip line))); [discriminate|].
  destruct (is_heading_total processed i line Hi) as (h & ->); cbn [bind].
  destruct h; [discriminate|].
  destruct (contains BAR line || contains TAB line); [|discriminate].
  destruct (in_table st) as [[|]|]; try discriminate.
  intros H; inversion H; reflexivity.
Qed.

(** X1: on every fragment list whose line height is in the exact range, the
    inline copy of the image path either returns exactly what [_extract_text]
    returns on a page with these fields, or raises UnboundLocalError; it
    raises nothing else. *)
Theorem image_path_same_or_unbound (upper : char -> bool) (fs : list field) :
  exact_line_height fs ->
  image_markdown upper fs
  = extract_text upper {| fields := Some fs; title := None |}
  \/ image_markdown upper fs = Raise UnboundLocalError.
Proof.
  intros _.
  destruct (image_markdown upper fs) as [md|e] eqn:H.
  - left; symmetry; exact (image_agrees_when_it_completes upper fs md H).
  - right; f_equal.
    unfold image_markdown, reconstruct in H.
    destruct (group_lines_total fs) as (ls & Hls); rewrite Hls in H.
    cbn [bind] in H.
    destruct (assemble_total upper ls) as (pl & Hpl); rewrite Hpl in H.
    cbn [bind] in H; unfold emit in H.
    destruct (for_each (emit_step pl) (enumerate pl)
                {| markdown_text := []; in_table := None |}) as [st|e1] eqn:Hl;
      cbn [bind] in H; [discriminate|].
    inversion H; subst e1; clear H.
    destruct (for_each_raises _ _ _ _ Hl) as (s1 & [i line] & Hin & Hstep).
    exact (emit_step_raises_unbound pl s1 i line e (in_enumerate pl i line Hin)
             Hstep).
Qed.

Lemma image_path_same_or_unbound_witness :
  let fs := [boxed "A|B" 0 0 30 20; boxed "C" 0 100 30 120] in
  exact_line_height fs
  /\ (image_markdown ascii_only fs
      = extract_text ascii_only {| fields := Some fs; title := None |}
      \/ image_markdown ascii_only fs = Raise UnboundLocalError).
Proof.
  intros fs.
  assert (H : exact_line_height fs).
  { intros h Hh; vm_compute in Hh; inversion Hh; reflexivity. }
  split; [exact H|].
  exact (image_path_same_or_unbound ascii_only fs H).
Defined.

(** ** What the Line Grouper keeps *)

Lemma kept_unboxed (f : field) : field_vertices f = [] -> kept f = true.
Proof. intros E; unfold kept; rewrite E; reflexivity. Qed.

Lemma kept_boxed (f : field) (b : box) :
  field_vertices f <> [] -> box_of (field_vertices f) = Ok b ->
  kept f = negb (width b <? height b).
Proof.
  intros Hv Hb; unfold kept; rewrite Hb.
  destruct (field_vertices f); [congruence | reflexivity].
Qed.

(** The effect of one step on the lines and the buffer: a fragment that is
    not kept changes neither; a kept one is appended to the buffer, after the
    buffer was flushed (and possibly a marker appended) when it starts a new
    line, which needs an earlier fragment with vertices. *)
Lemma group_step_tagged_shape (t t' : tstate) (f : field) :
  group_step_tagged t f = Ok t' ->
  if kept f then
    (tlines t' = tlines t
     /\ tcurrent_line t' = tcurrent_line t ++ [field_text f])
    \/ (tlast_y t <> None
        /\ tcurrent_line t' = [field_text f]
        /\ exists np : bool,
            tlines t'
            = fst (tflush (tlines t) (tcurrent_line t))
              ++ (if np then [ParagraphMark] else []))
  else
    tlines t' = tlines t /\ tcurrent_line t' = tcurrent_line t
    /\ tlast_y t' = tlast_y t.
Proof.
  destruct (field_vertices f) as [|v vs] eqn:E.
  - rewrite (kept_unboxed f E); unfold group_step_tagged; rewrite E.
    intros H; inversion H; subst; simpl; left; auto.
  - destruct (box_of_total (v :: vs)) as (b & Hb); [discriminate|].
    rewrite <- E in Hb.
    assert (Hv : field_vertices f <> []) by congruence.
    rewrite (kept_boxed f b Hv Hb).
    unfold group_step_tagged.
    rewrite has_vertices_true by exact Hv; rewrite Hb; cbn [bind].
    destruct (width b <? height b); cbn [negb].
    + intros H; inversion H; subst; simpl; auto.
    + unfold break_flags.
      change (last_y (fix_line_height (untag t) b)) with (tlast_y t).
      destruct (tlast_y t) as [ly|] eqn:Ely; cbn [bind].
      * assert (Hflush : forall (nl np : bool) r,
                   (let '(ls, cur) :=
                      if nl then
                        let '(ls, cur) := tflush (tlines t) (tcurrent_line t) in
                        (if np then ls ++ [ParagraphMark] else ls, cur)
                      else (tlines t, tcurrent_line t) in
                    Ok {| tlines := ls; tcurrent_line := cur ++ [field_text f];
                          tlast_y := Some (current_y b);
                          tlast_x_end := Some (current_x_end b);
                          tline_height := r |}) = Ok t' ->
                   (tlines t' = tlines t
                    /\ tcurrent_line t' = tcurrent_line t ++ [field_text f])
                   \/ (Some ly <> None
                       /\ tcurrent_line t' = [field_text f]
                       /\ exists np0 : bool,
                           tlines t'
                           = fst (tflush (tlines t) (tcurrent_line t))
                             ++ (if np0 then [ParagraphMark] else []))).
        { intros nl np r; destruct nl.
          - assert (Hs : snd (tflush (tlines t) (tcurrent_line t)) = [])
              by (destruct (tcurrent_line t); reflexivity).
            destruct (tflush (tlines t) (tcurrent_line t)) as [ls cur].
            simpl in Hs; subst cur.
            intros H; inversion H; subst; simpl; right.
            split; [discriminate|]; split; [reflexivity|].
            exists np; destruct np; [reflexivity|].
            rewrite app_nil_r; reflexivity.
          - intros H; inversion H; subst; simpl; left; auto. }
        destruct (y_threshold <? Z.abs (current_y b - ly)).
        -- destruct (line_height (fix_line_height (untag t) b));
             cbn [bind]; [exact (Hflush true _ _) | discriminate].
        -- destruct (last_x_end (fix_line_height (untag t) b));
             cbn [bind]; [exact (Hflush _ false _) | exact (Hflush false false _)].
      * intros H; inversion H; subst; simpl; left; auto.
Qed.

Lemma flat_map_tflush (ls : list entry) (cur : list str) :
  flat_map entry_texts (fst (tflush ls cur))
  = flat_map entry_texts ls ++ cur.
Proof.
  destruct cur as [|c cur]; simpl; [rewrite app_nil_r; reflexivity|].
  rewrite flat_map_app; simpl; rewrite app_nil_r; reflexivity.
Qed.

Lemma group_loop_tagged_texts (fs : list field) (t t' : tstate) :
  for_each group_step_tagged fs t = Ok t' ->
  flat_map entry_texts (tlines t') ++ tcurrent_line t'
  = (flat_map entry_texts (tlines t) ++ tcurrent_line t)
    ++ List.map field_text (filter kept fs).
Proof.
  revert t; induction fs as [|f fs IH]; intros t H; simpl in H.
  - inversion H; subst; simpl; rewrite app_nil_r; reflexivity.
  - apply bind_ok in H; destruct H as (t1 & H1 & H2).
    rewrite (IH t1 H2); clear IH H2.
    apply group_step_tagged_shape in H1; simpl.
    destruct (kept f).
    + destruct H1 as [[Hl Hc]|(_ & Hc & np & Hl)]; rewrite Hl, Hc.
      * simpl; rewrite <- !app_assoc; reflexivity.
      * rewrite flat_map_app, flat_map_tflush.
        destruct np; simpl; rewrite ?app_nil_r, <- !app_assoc; reflexivity.
    + destruct H1 as (Hl & Hc & _); rewrite Hl, Hc; reflexivity.
Qed.

(** X3: the Line Grouper neither loses nor reorders text: the fragment texts
    held by the entries of [lines], read in order, are exactly the texts of
    the kept fragments (those without vertices or with [width >= height]) in
    input order; the texts of the dropped fragments appear nowhere.  Stated
    for pages whose line height is in the exact range. *)
Theorem lines_hold_kept_texts (fs : list field) :
  exact_line_height fs ->
  exists es,
    group_lines_tagged fs = Ok es
    /\ group_lines fs = Ok (List.map entry_str es)
    /\ flat_map entry_texts es = List.map field_text (filter kept fs).
Proof.
  intros _.
  destruct (group_lines_untag fs) as (es & Ht & Hg).
  exists es; split; [exact Ht|]; split; [exact Hg|].
  unfold group_lines_tagged in Ht; apply bind_ok in Ht.
  destruct Ht as (t & Hloop & Hes); inversion Hes; subst; clear Hes.
  rewrite flat_map_tflush.
  apply (group_loop_tagged_texts fs tinit t Hloop).
Qed.

Lemma lines_hold_kept_texts_witness :
  let fs := [boxed "a" 0 0 30 20; boxed "t" 40 0 45 100; unboxed "b";
             boxed "c" 0 100 30 120] in
  exact_line_height fs
  /\ group_lines fs = Ok [lit "a b"; []; lit "c"]
  /\ List.map field_text (filter kept fs) = [lit "a"; lit "b"; lit "c"]
  /\ exists es,
      group_lines_tagged fs = Ok es
      /\ group_lines fs = Ok (List.map entry_str es)
      /\ flat_map entry_texts es = List.map field_text (filter kept fs).
Proof.
  intros fs.
  assert (H : exact_line_height fs).
  { intros h Hh; vm_compute in Hh; inversion Hh; reflexivity. }
  split; [exact H|]; split; [reflexivity|]; split; [reflexivity|].
  exact (lines_hold_kept_texts fs H).
Defined.

(** ** Where the paragraph markers stand *)

Lemma separated_last (es : list entry) :
  separated es -> es <> [] -> exists es' texts, es = es' ++ [Joined texts].
Proof.
  intros H Hne; destruct H as [|es texts H|es texts H Hes]; [congruence| |].
  - exists es, texts; reflexivity.
  - exists (es ++ [ParagraphMark]), texts; rewrite <- app_assoc; reflexivity.
Qed.

Lemma snoc_split {A : Type} (es pre post : list A) (x y : A) :
  es ++ [x] = pre ++ y :: post ->
  (post = [] /\ x = y /\ es = pre)
  \/ exists post', post = post' ++ [x] /\ es = pre ++ y :: post'.
Proof.
  intros H.
  assert (Hne : y :: post <> []) by discriminate.
  destruct (exists_last Hne) as (post' & z & Hz).
  rewrite Hz, app_assoc in H; apply app_inj_tail in H.
  destruct H as [H1 H2]; subst z.
  destruct post' as [|y' post'].
  - rewrite app_nil_r in H1; simpl in Hz; inversion Hz; left; auto.
  - simpl in Hz; inversion Hz; right.
    exists post'; split; [reflexivity | exact H1].
Qed.

(** In a separated sequence every marker has a joined line right before it
    and right after it. *)
Lemma separated_marker (es : list entry) :
  separated es ->
  forall pre post, es = pre ++ ParagraphMark :: post ->
  (exists pre' texts, pre = pre' ++ [Joined texts])
  /\ (exists texts post', post = Joined texts :: post').
Proof.
  induction 1 as [|es texts H IH|es texts H IH Hne]; intros pre post E.
  - destruct pre; discriminate.
  - apply snoc_split in E; destruct E as [(_ & E & _)|(post' & -> & E)];
      [discriminate|].
    destruct (IH pre post' E) as [Hpre (b & post'' & ->)].
    split; [exact Hpre|]; exists b, (post'' ++ [Joined texts]); reflexivity.
  - change (es ++ [ParagraphMark; Joined texts])
      with (es ++ [ParagraphMark] ++ [Joined texts]) in E.
    rewrite app_assoc in E.
    apply snoc_split in E; destruct E as [(_ & E & _)|(post' & -> & E)];
      [discriminate|].
    apply snoc_split in E; destruct E as [(-> & _ & <-)|(post'' & -> & E)].
    + split; [apply separated_last; assumption|].
      exists texts, []; reflexivity.
    + destruct (IH pre post'' E) as [Hpre (b & post3 & ->)].
      split; [exact Hpre|].
      exists b, ((post3 ++ [ParagraphMark]) ++ [Joined texts]); reflexivity.
Qed.

Lemma group_loop_tagged_separated (fs : list field) (t t' : tstate) :
  (tlast_y t <> None -> tcurrent_line t <> []) ->
  separated (tlines t)
  \/ (tcurrent_line t <> []
      /\ exists es, tlines t = es ++ [ParagraphMark] /\ separated es /\ es <> []) ->
  for_each group_step_tagged fs t = Ok t' ->
  separated (fst (tflush (tlines t') (tcurrent_line t'))).
Proof.
  assert (Hclose : forall ls cur,
             cur <> [] ->
             separated ls
             \/ (exists es, ls = es ++ [ParagraphMark] /\ separated es /\ es <> []) ->
             separated (ls ++ [Joined cur])).
  { intros ls cur _ [H|(es & -> & H & Hne)].
    - apply separated_line; exact H.
    - rewrite <- app_assoc; apply separated_break; assumption. }
  revert t; induction fs as [|f fs IH]; intros t Hy Hs H; simpl in H.
  - inversion H; subst; clear H.
    destruct (tcurrent_line t') as [|c cur] eqn:Ec; simpl.
    + destruct Hs as [Hs|[Hne _]]; [exact Hs | congruence].
    + apply Hclose; [discriminate|].
      destruct Hs as [Hs|[_ Hs]]; auto.
  - apply bind_ok in H; destruct H as (t1 & H1 & H2).
    apply (IH t1); [| |exact H2]; clear IH H2;
      apply group_step_tagged_shape in H1; destruct (kept f).
    + destruct H1 as [[_ Hc]|(_ & Hc & _)]; rewrite Hc; intros _;
        [destruct (tcurrent_line t)|]; discriminate.
    + destruct H1 as (_ & Hc & Hl); rewrite Hc, Hl; exact Hy.
    + destruct H1 as [[Hl Hc]|(Hly & Hc & np & Hl)].
      * rewrite Hl, Hc.
        destruct Hs as [Hs|[_ Hs]]; [left; exact Hs|right].
        split; [destruct (tcurrent_line t); discriminate | exact Hs].
      * pose proof (Hy Hly) as Hcur.
        assert (Hsep : separated (tlines t ++ [Joined (tcurrent_line t)])).
        { apply Hclose; [exact Hcur|].
          destruct Hs as [Hs|[_ Hs]]; auto. }
        assert (Hfl : fst (tflush (tlines t) (tcurrent_line t))
                      = tlines t ++ [Joined (tcurrent_line t)])
          by (destruct (tcurrent_line t); [congruence | reflexivity]).
        rewrite Hl, Hc, Hfl.
        destruct np.
        -- right; split; [discriminate|].
           exists (tlines t ++ [Joined (tcurrent_line t)]).
           split; [reflexivity|]; split; [exact Hsep|].
           destruct (tlines t); discriminate.
        -- left; rewrite app_nil_r; exact Hsep.
    + destruct H1 as (Hl & Hc & _); rewrite Hl, Hc; exact Hs.
Qed.

(** X4: in the [lines] of a page a paragraph marker is never first, never
    last and never next to another marker: each one stands between two
    entries joined from fragment texts.  Stated for pages whose line height
    is in the exact range. *)
Theorem markers_stand_between_lines (fs : list field) :
  exact_line_height fs ->
  exists es,
    group_lines_tagged fs = Ok es
    /\ group_lines fs = Ok (List.map entry_str es)
    /\ forall pre post, es = pre ++ ParagraphMark :: post ->
         (exists pre' texts, pre = pre' ++ [Joined texts])
         /\ (exists texts post', post = Joined texts :: post').
Proof.
  intros _.
  destruct (group_lines_untag fs) as (es & Ht & Hg).
  exists es; split; [exact Ht|]; split; [exact Hg|].
  unfold group_lines_tagged in Ht; apply bind_ok in Ht.
  destruct Ht as (t & Hloop & Hes); inversion Hes; subst; clear Hes.
  apply separated_marker.
  apply (group_loop_tagged_separated fs tinit t); [| |exact Hloop].
  - simpl; congruence.
  - left; constructor.
Qed.

Lemma markers_stand_between_lines_witness :
  let fs := [boxed "a" 0 0 30 20; boxed "b" 0 100 30 120;
             boxed "c" 0 200 30 220] in
  exact_line_height fs
  /\ group_lines_tagged fs
     = Ok [Joined [lit "a"]; ParagraphMark; Joined [lit "b"]; ParagraphMark;
           Joined [lit "c"]]
  /\ exists es,
      group_lines_tagged fs = Ok es
      /\ group_lines fs = Ok (List.map entry_str es)
      /\ forall pre post, es = pre ++ ParagraphMark :: post ->
           (exists pre' texts, pre = pre' ++ [Joined texts])
           /\ (exists texts post', post = Joined texts :: post').
Proof.
  intros fs.
  assert (H : exact_line_height fs).
  { intros h Hh; vm_compute in Hh; inversion Hh; reflexivity. }
  split; [exact H|]; split; [reflexivity|].
  exact (markers_stand_between_lines fs H).
Defined.

(** ** Pages without vertices, and pages without text *)

Lemma group_loop_unboxed (fs : list field) (st : gstate) :
  (forall f, In f fs -> field_vertices f = []) ->
  for_each group_step fs st
  = Ok {| lines := lines st;
          current_line := current_line st ++ List.map field_text fs;
          last_y := last_y st; last_x_end := last_x_end st;
          line_height := line_height st |}.
Proof.
  revert st; induction fs as [|f fs IH]; intros st H; simpl.
  - rewrite app_nil_r; destruct st; reflexivity.
  - rewrite group_step_unboxed by (apply H; left; reflexivity); cbn [bind].
    rewrite IH by (intros g Hg; apply H; right; exact Hg); simpl.
    rewrite <- app_assoc; reflexivity.
Qed.

(** X5: when no fragment of a non-empty page has vertices (no
    [boundingPoly], no [vertices] key or an empty list), the whole page is one
    line: the fragment texts in input order, joined by single spaces. *)
Theorem unboxed_page_is_one_line (fs : list field) :
  fs <> [] ->
  (forall f, In f fs -> field_vertices f = []) ->
  group_lines fs = Ok [join SPACE (List.map field_text fs)].
Proof.
  intros Hne H; unfold group_lines.
  rewrite (group_loop_unboxed fs ginit H); cbn [bind]; simpl.
  destruct fs as [|f fs]; [congruence | reflexivity].
Qed.

Lemma unboxed_page_is_one_line_witness :
  let fs := [unboxed "Hello"; unboxed "world"] in
  (fs <> [] /\ (forall f, In f fs -> field_vertices f = []))
  /\ group_lines fs = Ok [lit "Hello world"].
Proof.
  intros fs.
  assert (H1 : fs <> []) by discriminate.
  assert (H2 : forall f, In f fs -> field_vertices f = []).
  { intros f [<-|[<-|[]]]; reflexivity. }
  split; [split; assumption|].
  exact (unboxed_page_is_one_line fs H1 H2).
Defined.

Lemma for_each_last_step {S A : Type} (body : S -> A -> result S)
  (l : list A) (s s' : S) :
  l <> [] -> for_each body l s = Ok s' ->
  exists s1 a, In a l /\ body s1 a = Ok s'.
Proof.
  intros Hne H; destruct (exists_last Hne) as (l' & a & ->).
  rewrite for_each_app in H; apply bind_ok in H; destruct H as (s1 & _ & H).
  simpl in H; apply bind_ok in H; destruct H as (s2 & H & E).
  inversion E; subst.
  exists s1, a; split; [apply in_or_app; right; left; reflexivity | exact H].
Qed.

Lemma enumerate_nonempty {A : Type} (l : list A) :
  l <> [] -> enumerate l <> [].
Proof. destruct l; [congruence | discriminate]. Qed.

Lemma snoc_nonempty {A : Type} (l r : list A) : r <> [] -> l ++ r <> [].
Proof. destruct l; [auto | discriminate]. Qed.

Lemma flush_nonempty (ls cur : list str) :
  ls <> [] \/ cur <> [] -> fst (flush ls cur) <> [].
Proof.
  destruct cur as [|c cur]; simpl.
  - intros [H|H]; congruence.
  - intros _; apply snoc_nonempty; discriminate.
Qed.

Lemma group_loop_none_kept (fs : list field) (t t' : tstate) :
  (forall f, In f fs -> kept f = false) ->
  for_each group_step_tagged fs t = Ok t' ->
  tlines t' = tlines t /\ tcurrent_line t' = tcurrent_line t.
Proof.
  revert t; induction fs as [|f fs IH]; intros t Hk H; simpl in H.
  - inversion H; subst; auto.
  - apply bind_ok in H; destruct H as (t1 & H1 & H2).
    apply group_step_tagged_shape in H1.
    rewrite (Hk f (or_introl eq_refl)) in H1; destruct H1 as (Hl & Hc & _).
    destruct (IH t1) as [Hl' Hc'];
      [intros g Hg; apply Hk; right; exact Hg | exact H2 |].
    split; congruence.
Qed.

(** The page has no line exactly when no fragment is kept. *)
Lemma group_lines_nil (fs : list field) :
  group_lines fs = Ok [] <-> forall f, In f fs -> kept f = false.
Proof.
  destruct (group_lines_untag fs) as (es & Ht & Hg).
  unfold group_lines_tagged in Ht; apply bind_ok in Ht.
  destruct Ht as (t & Hloop & Hes); inversion Hes; subst; clear Hes.
  rewrite Hg; split.
  - intros H; inversion H as [He].
    apply map_eq_nil in He.
    pose proof (group_loop_tagged_texts fs tinit t Hloop) as Htx.
    rewrite <- flat_map_tflush, He in Htx; simpl in Htx.
    symmetry in Htx; apply map_eq_nil in Htx.
    intros f Hf.
    destruct (kept f) eqn:Ek; [|reflexivity].
    assert (Hin : In f (filter kept fs)) by (apply filter_In; auto).
    rewrite Htx in Hin; destruct Hin.
  - intros Hk.
    destruct (group_loop_none_kept fs tinit t Hk Hloop) as [-> ->].
    reflexivity.
Qed.

Lemma paragraph_step_grows (upper : char -> bool) (lines : list str)
  (st st' : pstate) (il : nat * str) :
  paragraph_step upper lines st il = Ok st' ->
  processed_lines st' <> [] \/ current_paragraph st' <> [].
Proof.
  destruct il as [i line]; unfold paragraph_step.
  destruct (negb (truthy (strip line))).
  - destruct (flush _ _) as [out c]; intros H; inversion H; subst; simpl.
    left; apply snoc_nonempty; discriminate.
  - destruct (next_line_new_sentence upper lines i) as [b|e]; cbn [bind];
      [|discriminate].
    match goal with |- context [if ?c then _ else _] => destruct c end;
      intros H; inversion H; subst; simpl;
      [left | right]; apply snoc_nonempty; discriminate.
Qed.

(** The Paragraph Assembler returns no entry exactly when it is given no
    line. *)
Lemma assemble_nil (upper : char -> bool) (lines processed : list str) :
  assemble upper lines = Ok processed -> (processed = [] <-> lines = []).
Proof.
  unfold assemble; intros H; apply bind_ok in H.
  destruct H as (st & Hloop & E); inversion E; subst; clear E.
  split.
  - intros Hnil; destruct lines as [|l lines']; [reflexivity|].
    exfalso.
    destruct (for_each_last_step _ _ _ _
                (enumerate_nonempty (l :: lines') ltac:(discriminate)) Hloop)
      as (s1 & a & _ & Hstep).
    apply paragraph_step_grows in Hstep.
    exact (flush_nonempty _ _ Hstep Hnil).
  - intros ->; simpl in Hloop; inversion Hloop; subst; reflexivity.
Qed.

Lemma emit_step_grows (processed : list str) (st st' : estate)
  (il : nat * str) :
  emit_step processed st il = Ok st' -> markdown_text st' <> [].
Proof.
  destruct il as [i line]; unfold emit_step.
  destruct (negb (truthy (strip line))).
  - intros H; inversion H; subst; simpl; apply snoc_nonempty; discriminate.
  - destruct (is_heading processed i line) as [h|e]; cbn [bind];
      [|discriminate].
    destruct h.
    + intros H; inversion H; subst; simpl.
      apply snoc_nonempty; discriminate.
    + destruct (contains BAR line || contains TAB line).
      * destruct (in_table st) as [[|]|]; intros H; inversion H; subst;
          simpl; apply snoc_nonempty; discriminate.
      * intros H; inversion H; subst; simpl.
        apply snoc_nonempty, snoc_nonempty; discriminate.
Qed.

(** The emitter returns the empty string exactly when it is given no
    entry. *)
Lemma emit_nil (in_table0 : option bool) (processed : list str) (md : str) :
  emit in_table0 processed = Ok md -> (md = [] <-> processed = []).
Proof.
  unfold emit; intros H; apply bind_ok in H.
  destruct H as (st & Hloop & E); inversion E; subst; clear E.
  split.
  - intros Hnil; destruct processed as [|l pl]; [reflexivity|].
    exfalso.
    destruct (for_each_last_step _ _ _ _
                (enumerate_nonempty (l :: pl) ltac:(discriminate)) Hloop)
      as (s1 & a & _ & Hstep).
    exact (emit_step_grows _ _ _ _ Hstep Hnil).
  - intros ->; simpl in Hloop; inversion Hloop; subst; reflexivity.
Qed.

Lemma reconstruct_nil (upper : char -> bool) (in_table0 : option bool)
  (fs : list field) :
  reconstruct upper in_table0 fs = Ok []
  <-> forall f, In f fs -> kept f = false.
Proof.
  rewrite <- group_lines_nil; unfold reconstruct; split.
  - intros H; apply bind_ok in H; destruct H as (ls & Hls & H).
    apply bind_ok in H; destruct H as (pl & Hpl & H).
    assert (pl = []) by (apply (emit_nil _ _ _ H); reflexivity); subst pl.
    assert (ls = []) by (apply (assemble_nil _ _ _ Hpl); reflexivity).
    subst ls; exact Hls.
  - intros ->; reflexivity.
Qed.

(** X6: a page gives the empty Markdown text exactly when none of its
    fragments is kept, that is, when every fragment has vertices and is
    taller than wide (or there is no fragment).  So [_extract_text] returns
    the empty string, and [call_naver_ocr_image] returns its no-text error,
    in exactly this case. *)
Theorem no_text_iff_nothing_kept (upper : char -> bool) (fs : list field)
  (t : option title_field) (rest : list image_result) :
  (extract_text upper {| fields := Some fs; title := t |} = Ok []
   <-> forall f, In f fs -> kept f = false)
  /\ (call_naver_ocr_image upper
        {| images := Some ({| fields := Some fs; title := t |} :: rest) |}
      = (None, Some NoTextExtracted)
      <-> forall f, In f fs -> kept f = false).
Proof.
  split; [apply reconstruct_nil|].
  rewrite <- (reconstruct_nil upper None fs).
  unfold call_naver_ocr_image, image_body, image_markdown; cbn [images fields].
  destruct (reconstruct upper None fs) as [md|e].
  - destruct md as [|c md]; simpl; split; intros H;
      reflexivity || discriminate.
  - split; discriminate.
Qed.

(** ** Blank lines split the work of the Paragraph Assembler *)

Lemma for_each_ext_in {S A : Type} (body1 body2 : S -> A -> result S)
  (l : list A) (s : S) :
  (forall s a, In a l -> body1 s a = body2 s a) ->
  for_each body1 l s = for_each body2 l s.
Proof.
  revert s; induction l as [|a l IH]; intros s H; simpl; [reflexivity|].
  rewrite (H s a (or_introl eq_refl)).
  destruct (body2 s a) as [s1|e]; simpl; [|reflexivity].
  apply IH; intros s2 a2 Ha; apply H; right; exact Ha.
Qed.

Lemma combine_seq_app {A : Type} (l r : list A) (a : nat) :
  combine (seq a (length (l ++ r))) (l ++ r)
  = combine (seq a (length l)) l
    ++ combine (seq (a + length l) (length r)) r.
Proof.
  revert a; induction l as [|x l IH]; intros a; simpl.
  - rewrite Nat.add_0_r; reflexivity.
  - rewrite IH, Nat.add_succ_r; reflexivity.
Qed.

Lemma index_shift {A : Type} (pre l : list A) (j : nat) :
  index (pre ++ l) (length pre + j) = index l j.
Proof.
  unfold index; rewrite nth_error_app2 by lia.
  replace (length pre + j - length pre)%nat with j by lia; reflexivity.
Qed.

Lemma index_prefix {A : Type} (l post : list A) (i : nat) :
  (i < length l)%nat -> index (l ++ post) i = index l i.
Proof. intros H; unfold index; rewrite nth_error_app1 by exact H; reflexivity. Qed.

Lemma next_line_congr (upper : char -> bool) (L1 L2 : list str) (i1 i2 : nat) :
  (Z.of_nat i1 <? Z.of_nat (length L1) - 1)
  = (Z.of_nat i2 <? Z.of_nat (length L2) - 1) ->
  index L1 (i1 + 1) = index L2 (i2 + 1) ->
  next_line_new_sentence upper L1 i1 = next_line_new_sentence upper L2 i2.
Proof. unfold next_line_new_sentence; intros -> ->; reflexivity. Qed.

Lemma paragraph_step_congr (upper : char -> bool) (L1 L2 : list str)
  (i1 i2 : nat) (st : pstate) (line : str) :
  next_line_new_sentence upper L1 i1 = next_line_new_sentence upper L2 i2 ->
  (Z.of_nat i1 =? Z.of_nat (length L1) - 1)
  = (Z.of_nat i2 =? Z.of_nat (length L2) - 1) ->
  paragraph_step upper L1 st (i1, line) = paragraph_step upper L2 st (i2, line).
Proof. unfold paragraph_step; intros -> ->; reflexivity. Qed.

Lemma ltb_congr (a b c d : Z) : (a < b <-> c < d) -> (a <? b) = (c <? d).
Proof.
  intros H; destruct (Z.ltb_spec a b), (Z.ltb_spec c d); try reflexivity; lia.
Qed.

Lemma eqb_congr (a b c d : Z) : (a = b <-> c = d) -> (a =? b) = (c =? d).
Proof.
  intros H; destruct (Z.eqb_spec a b), (Z.eqb_spec c d); try reflexivity;
    exfalso; tauto.
Qed.

(** The step on a line of index [length pre + j] of [pre ++ l] is the step on
    the line of index [j] of [l]. *)
Lemma paragraph_step_shift (upper : char -> bool) (pre l : list str)
  (j : nat) (st : pstate) (line : str) :
  paragraph_step upper (pre ++ l) st (length pre + j, line)%nat
  = paragraph_step upper l st (j, line).
Proof.
  apply paragraph_step_congr.
  - apply next_line_congr.
    + apply ltb_congr; rewrite length_app; lia.
    + rewrite <- Nat.add_assoc; apply index_shift.
  - apply eqb_congr; rewrite length_app; lia.
Qed.

(** The step on a line of [l] that is not its last one does not depend on
    what follows [l]. *)
Lemma paragraph_step_prefix (upper : char -> bool) (l post : list str)
  (i : nat) (st : pstate) (line : str) :
  (i + 1 < length l)%nat ->
  paragraph_step upper (l ++ post) st (i, line)
  = paragraph_step upper l st (i, line).
Proof.
  intros H; apply paragraph_step_congr.
  - apply next_line_congr.
    + apply ltb_congr; rewrite length_app; lia.
    + apply index_prefix; exact H.
  - apply eqb_congr; rewrite length_app; lia.
Qed.

Lemma flush_frame (pre ls cur : list str) :
  flush (pre ++ ls) cur = (pre ++ fst (flush ls cur), snd (flush ls cur)).
Proof.
  destruct cur; simpl; [reflexivity | rewrite app_assoc; reflexivity].
Qed.

(** Entries already in [processed_lines] are left alone by the step. *)
Lemma paragraph_step_frame (upper : char -> bool) (lines pre : list str)
  (st : pstate) (il : nat * str) :
  paragraph_step upper lines
    {| processed_lines := pre ++ processed_lines st;
       current_paragraph := current_paragraph st |} il
  = (st' <- paragraph_step upper lines st il ;;
     Ok {| processed_lines := pre ++ processed_lines st';
           current_paragraph := current_paragraph st' |}).
Proof.
  destruct il as [i line]; unfold paragraph_step; cbn [processed_lines current_paragraph].
  destruct (negb (truthy (strip line))).
  - rewrite flush_frame.
    destruct (flush (processed_lines st) (current_paragraph st)) as [out c].
    cbn [fst snd bind processed_lines current_paragraph].
    rewrite app_assoc; reflexivity.
  - destruct (next_line_new_sentence upper lines i) as [b|e]; cbn [bind];
      [|reflexivity].
    match goal with |- context [if ?c then _ else _] => destruct c end;
      cbn [bind processed_lines current_paragraph];
      rewrite ?app_assoc; reflexivity.
Qed.

Lemma paragraph_loop_shift (upper : char -> bool) (pre l out r : list str) :
  forall (a : nat) (st : pstate),
    for_each (paragraph_step upper (pre ++ l))
      (combine (seq (length pre + a) (length r)) r)
      {| processed_lines := out ++ processed_lines st;
         current_paragraph := current_paragraph st |}
    = (st' <- for_each (paragraph_step upper l)
                (combine (seq a (length r)) r) st ;;
       Ok {| processed_lines := out ++ processed_lines st';
             current_paragraph := current_paragraph st' |}).
Proof.
  induction r as [|x r IH]; intros a st; [reflexivity|].
  cbn [length seq combine for_each].
  rewrite paragraph_step_shift, paragraph_step_frame.
  destruct (paragraph_step upper l st (a, x)) as [st1|e]; cbn [bind];
    [|reflexivity].
  rewrite <- Nat.add_succ_r; apply IH.
Qed.

(** The loop over the lines before a blank line ends in a state that flushes
    to what the assembler returns on these lines alone. *)
Lemma paragraph_loop_before_blank (upper : char -> bool) (l1 post : list str)
  (b : str) :
  strip b = [] ->
  exists sc p1,
    for_each (paragraph_step upper (l1 ++ b :: post))
      (combine (seq 0 (length l1)) l1) pinit = Ok sc
    /\ assemble upper l1 = Ok p1
    /\ fst (flush (processed_lines sc) (current_paragraph sc)) = p1.
Proof.
  intros Hb.
  destruct l1 as [|x0 l0] eqn:El1.
  { exists pinit, []; repeat split; reflexivity. }
  assert (Hne : l1 <> []) by (rewrite El1; discriminate).
  rewrite <- El1; clear El1 x0 l0.
  destruct (exists_last Hne) as (l & x & ->); clear Hne.
  unfold assemble, enumerate.
  rewrite !combine_seq_app; cbn [length seq combine Nat.add].
  rewrite !for_each_app.
  assert (Hsame :
            for_each (paragraph_step upper ((l ++ [x]) ++ b :: post))
              (combine (seq 0 (length l)) l) pinit
            = for_each (paragraph_step upper (l ++ [x]))
                (combine (seq 0 (length l)) l) pinit).
  { apply for_each_ext_in; intros s [i line] Hin.
    apply in_combine_seq in Hin; destruct Hin as [_ Hin].
    assert (i - 0 < length l)%nat by (apply nth_error_Some; congruence).
    apply paragraph_step_prefix; rewrite length_app; simpl; lia. }
  rewrite Hsame; clear Hsame.
  destruct (for_each (paragraph_step upper (l ++ [x]))
              (combine (seq 0 (length l)) l) pinit) as [s|e] eqn:Hl.
  2:{ exfalso.
      assert (Ht : forall (r : list (nat * str)) st,
                 exists st', for_each (paragraph_step upper (l ++ [x])) r st
                             = Ok st').
      { induction r as [|il r IH]; intros st; simpl; [eexists; reflexivity|].
        destruct (paragraph_step_total upper (l ++ [x]) st il) as (st1 & ->).
        simpl; apply IH. }
      destruct (Ht (combine (seq 0 (length l)) l) pinit) as (st' & Hst').
      congruence. }
  cbn [bind for_each].
  unfold paragraph_step.
  destruct (negb (truthy (strip x))) eqn:Hx.
  - destruct (flush (processed_lines s) (current_paragraph s)) as [out c].
    cbn [bind]; eexists; eexists; repeat split; reflexivity.
  - assert (Hn1 : next_line_new_sentence upper ((l ++ [x]) ++ b :: post)
                    (length l) = Ok false).
    { unfold next_line_new_sentence.
      destruct (Z.ltb_spec (Z.of_nat (length l))
                  (Z.of_nat (length ((l ++ [x]) ++ b :: post)) - 1)) as [_|H];
        [|rewrite !length_app in H; simpl in H; lia].
      replace (length l + 1)%nat with (length (l ++ [x]) + 0)%nat
        by (rewrite length_app; simpl; lia).
      rewrite index_shift; unfold index; cbn [nth_error bind].
      rewrite Hb; reflexivity. }
    assert (Hn2 : next_line_new_sentence upper (l ++ [x]) (length l)
                  = Ok false).
    { unfold next_line_new_sentence.
      destruct (Z.ltb_spec (Z.of_nat (length l))
                  (Z.of_nat (length (l ++ [x])) - 1)) as [H|_];
        [rewrite length_app in H; simpl in H; lia | reflexivity]. }
    rewrite Hn1, Hn2; cbn [bind orb].
    assert (He1 : (Z.of_nat (length l)
                   =? Z.of_nat (length ((l ++ [x]) ++ b :: post)) - 1) = false).
    { apply Z.eqb_neq; rewrite !length_app; simpl; lia. }
    assert (He2 : (Z.of_nat (length l)
                   =? Z.of_nat (length (l ++ [x])) - 1) = true).
    { apply Z.eqb_eq; rewrite length_app; simpl; lia. }
    rewrite He1, He2, andb_false_r, andb_true_r.
    destruct (endswith_any (rstrip x) sentence_enders); cbn [bind].
    + eexists; eexists; split; [reflexivity|]; split; [reflexivity|].
      cbn [processed_lines current_paragraph flush fst].
      destruct (current_paragraph s); reflexivity.
    + eexists; eexists; repeat split; reflexivity.
Qed.

(** X7: a blank line (empty or white space only) is a hard paragraph
    boundary: the assembler's output on [l1 ++ [blank] ++ l2] is its output on
    [l1], an empty-string entry, and its output on [l2]; nothing is merged
    across the blank line. *)
Theorem blank_line_splits_paragraphs (upper : char -> bool)
  (l1 l2 : list str) (b : str) :
  strip b = [] ->
  exists p1 p2,
    assemble upper l1 = Ok p1
    /\ assemble upper l2 = Ok p2
    /\ assemble upper (l1 ++ b :: l2) = Ok (p1 ++ [] :: p2).
Proof.
  intros Hb.
  destruct (paragraph_loop_before_blank upper l1 l2 b Hb)
    as (sc & p1 & Hsc & Hp1 & Hfl).
  destruct (assemble_total upper l2) as (p2 & Hp2).
  exists p1, p2; split; [exact Hp1|]; split; [exact Hp2|].
  unfold assemble in Hp2 |- *; unfold enumerate in Hp2 |- *.
  rewrite combine_seq_app, for_each_app, Hsc; cbn [bind].
  cbn [length seq combine for_each Nat.add].
  unfold paragraph_step at 1; rewrite Hb; cbn [truthy negb].
  destruct (flush (processed_lines sc) (current_paragraph sc)) as [out c] eqn:Ef.
  simpl in Hfl; subst out; cbn [bind].
  apply bind_ok in Hp2; destruct Hp2 as (st2 & Hst2 & E).
  inversion E; subst p2; clear E.
  change (l1 ++ b :: l2) with (l1 ++ [b] ++ l2); rewrite app_assoc.
  replace (S (length l1)) with (length (l1 ++ [b]) + 0)%nat
    by (rewrite length_app; simpl; lia).
  pose proof (paragraph_loop_shift upper (l1 ++ [b]) l2 (p1 ++ [[]]) l2 0 pinit)
    as Hshift.
  cbn [processed_lines current_paragraph pinit] in Hshift.
  rewrite app_nil_r in Hshift; rewrite Hshift, Hst2; cbn [bind].
  cbn [processed_lines current_paragraph].
  rewrite flush_frame; cbn [fst].
  rewrite <- app_assoc; reflexivity.
Qed.

Lemma blank_line_splits_paragraphs_witness :
  let l1 := [lit "First line"; lit "goes on."] in
  let l2 := [lit "Second"; lit "paragraph."] in
  strip (lit "  ") = []
  /\ exists p1 p2,
      assemble ascii_only l1 = Ok p1
      /\ assemble ascii_only l2 = Ok p2
      /\ assemble ascii_only (l1 ++ lit "  " :: l2) = Ok (p1 ++ [] :: p2).
Proof.
  intros l1 l2.
  assert (H : strip (lit "  ") = []) by reflexivity.
  split; [exact H|].
  exact (blank_line_splits_paragraphs ascii_only l1 l2 (lit "  ") H).
Defined.

(** ** Blank entries split the work of the Markdown Emitter *)

Lemma emit_step_congr (P1 P2 : list str) (i1 i2 : nat) (st : estate)
  (line : str) :
  is_heading P1 i1 line = is_heading P2 i2 line ->
  emit_step P1 st (i1, line) = emit_step P2 st (i2, line).
Proof. unfold emit_step; intros ->; reflexivity. Qed.

(** Before a blank entry, the heading test does not depend on what follows
    it. *)
Lemma is_heading_prefix (l post : list str) (b : str) (i : nat) (line : str) :
  strip b = [] -> (i < length l)%nat ->
  is_heading (l ++ b :: post) i line = is_heading l i line.
Proof.
  intros Hb Hi; unfold is_heading.
  destruct (Z.of_nat (length line) <? 50); [|reflexivity].
  assert (Hprev : match i with
                  | O => Ok true
                  | S j => prev <- index (l ++ b :: post) j ;;
                           Ok (negb (truthy (strip prev)))
                  end
                  = match i with
                    | O => Ok true
                    | S j => prev <- index l j ;;
                             Ok (negb (truthy (strip prev)))
                    end).
  { destruct i as [|j]; [reflexivity|].
    rewrite index_prefix by lia; reflexivity. }
  rewrite Hprev; clear Hprev.
  match goal with |- bind ?r _ = _ => destruct r as [[|]|e] end;
    cbn [bind]; try reflexivity.
  destruct (Z.ltb_spec (Z.of_nat i) (Z.of_nat (length (l ++ b :: post)) - 1))
    as [_|H]; [|rewrite length_app in H; simpl in H; lia].
  destruct (Z.ltb_spec (Z.of_nat i) (Z.of_nat (length l) - 1)) as [H|H].
  - rewrite index_prefix by lia; reflexivity.
  - assert (E : (i + 1)%nat = (length l + 0)%nat) by lia.
    rewrite E, index_shift; unfold index; cbn [nth_error bind].
    rewrite Hb; reflexivity.
Qed.

(** After a blank entry, the heading test is the one of the entries that
    follow it, taken alone. *)
Lemma is_heading_shift (p l : list str) (b : str) (j : nat) (line : str) :
  strip b = [] ->
  is_heading ((p ++ [b]) ++ l) (length (p ++ [b]) + j) line
  = is_heading l j line.
Proof.
  intros Hb; unfold is_heading.
  destruct (Z.of_nat (length line) <? 50); [|reflexivity].
  assert (Hprev : match (length (p ++ [b]) + j)%nat with
                  | O => Ok true
                  | S k => prev <- index ((p ++ [b]) ++ l) k ;;
                           Ok (negb (truthy (strip prev)))
                  end
                  = match j with
                    | O => Ok true
                    | S k => prev <- index l k ;;
                             Ok (negb (truthy (strip prev)))
                    end).
  { destruct j as [|k].
    - replace (length (p ++ [b]) + 0)%nat with (S (length p))
        by (rewrite length_app; simpl; lia).
      rewrite <- app_assoc.
      replace (length p) with (length p + 0)%nat at 1 by lia.
      rewrite index_shift; unfold index; cbn [app nth_error bind].
      rewrite Hb; reflexivity.
    - rewrite Nat.add_succ_r, index_shift; reflexivity. }
  rewrite Hprev; clear Hprev.
  match goal with |- bind ?r _ = _ => destruct r as [[|]|e] end;
    cbn [bind]; try reflexivity.
  rewrite (ltb_congr (Z.of_nat (length (p ++ [b]) + j))
             (Z.of_nat (length ((p ++ [b]) ++ l)) - 1)
             (Z.of_nat j) (Z.of_nat (length l) - 1))
    by (rewrite (length_app (p ++ [b]) l); lia).
  rewrite <- Nat.add_assoc, index_shift; reflexivity.
Qed.

(** Text already in [markdown_text] is left alone by the step. *)
Lemma emit_step_frame (processed : list str) (pre : str) (st : estate)
  (il : nat * str) :
  emit_step processed
    {| markdown_text := pre ++ markdown_text st; in_table := in_table st |} il
  = (st' <- emit_step processed st il ;;
     Ok {| markdown_text := pre ++ markdown_text st';
           in_table := in_table st' |}).
Proof.
  destruct il as [i line]; unfold emit_step; cbn [markdown_text in_table].
  destruct (negb (truthy (strip line))).
  - cbn [bind markdown_text in_table]; rewrite <- ?app_assoc; reflexivity.
  - destruct (is_heading processed i line) as [[|]|e];
      cbn [bind markdown_text in_table];
      [rewrite <- ?app_assoc; reflexivity | | reflexivity].
    destruct (contains BAR line || contains TAB line).
    + destruct (in_table st) as [[|]|]; cbn [bind markdown_text in_table];
        rewrite <- ?app_assoc; reflexivity.
    + cbn [bind markdown_text in_table]; rewrite <- ?app_assoc; reflexivity.
Qed.

Lemma emit_loop_shift (p l r : list str) (b : str) (out : str) :
  strip b = [] ->
  forall (a : nat) (st : estate),
    for_each (emit_step ((p ++ [b]) ++ l))
      (combine (seq (length (p ++ [b]) + a) (length r)) r)
      {| markdown_text := out ++ markdown_text st; in_table := in_table st |}
    = (st' <- for_each (emit_step l) (combine (seq a (length r)) r) st ;;
       Ok {| markdown_text := out ++ markdown_text st';
             in_table := in_table st' |}).
Proof.
  intros Hb; induction r as [|x r IH]; intros a st.
  - destruct st; reflexivity.
  - cbn [length seq combine for_each].
    rewrite (emit_step_congr ((p ++ [b]) ++ l) l (length (p ++ [b]) + a) a)
      by (apply is_heading_shift; exact Hb).
    rewrite emit_step_frame.
    destruct (emit_step l st (a, x)) as [st1|e]; cbn [bind]; [|reflexivity].
    rewrite <- Nat.add_succ_r; apply IH.
Qed.

(** X8: a blank entry makes the two sides render independently: the Markdown
    for [p1 ++ [blank] ++ p2] is the Markdown for [p1], a newline, and the
    Markdown for [p2] rendered from scratch with [in_table] false; headings
    and tables never reach across a blank entry.  This holds for both
    emitters, and an exception on either side is the exception of the
    whole. *)
Theorem blank_entry_splits_markdown (in_table0 : option bool)
  (p1 p2 : list str) (b : str) :
  strip b = [] ->
  emit in_table0 (p1 ++ b :: p2)
  = (md1 <- emit in_table0 p1 ;;
     md2 <- emit (Some false) p2 ;;
     Ok (md1 ++ NL ++ md2)).
Proof.
  intros Hb; unfold emit, enumerate.
  rewrite combine_seq_app, for_each_app.
  rewrite (for_each_ext_in (emit_step (p1 ++ b :: p2)) (emit_step p1)).
  2:{ intros s [i line] Hin.
      apply in_combine_seq in Hin; destruct Hin as [_ Hin].
      assert (i - 0 < length p1)%nat by (apply nth_error_Some; congruence).
      apply emit_step_congr, is_heading_prefix; [exact Hb | lia]. }
  destruct (for_each (emit_step p1) (combine (seq 0 (length p1)) p1)
              {| markdown_text := []; in_table := in_table0 |}) as [s1|e];
    cbn [bind]; [|reflexivity].
  cbn [length seq combine for_each Nat.add].
  rewrite emit_step_blank by (rewrite Hb; reflexivity); cbn [bind].
  change (p1 ++ b :: p2) with (p1 ++ [b] ++ p2); rewrite app_assoc.
  replace (S (length p1)) with (length (p1 ++ [b]) + 0)%nat
    by (rewrite length_app; simpl; lia).
  pose proof (emit_loop_shift p1 p2 p2 b (markdown_text s1 ++ NL) Hb 0
                {| markdown_text := []; in_table := Some false |}) as Hshift.
  cbn [markdown_text in_table] in Hshift.
  rewrite app_nil_r in Hshift; rewrite Hshift.
  destruct (for_each (emit_step p2) (combine (seq 0 (length p2)) p2)
              {| markdown_text := []; in_table := Some false |}) as [s2|e];
    cbn [bind markdown_text]; [|reflexivity].
  rewrite <- app_assoc; reflexivity.
Qed.

Lemma blank_entry_splits_markdown_witness :
  let p1 := [lit "Title"; lit "Some text."] in
  let p2 := [lit "A|B"; lit "C|D"] in
  strip [] = []
  /\ emit None (p1 ++ [] :: p2)
     = (md1 <- emit None p1 ;;
        md2 <- emit (Some false) p2 ;;
        Ok (md1 ++ NL ++ md2)).
Proof.
  intros p1 p2.
  assert (H : strip [] = []) by reflexivity.
  split; [exact H|].
  exact (blank_entry_splits_markdown None p1 p2 [] H).
Defined.

(** ** Blank entries of [processed_lines] *)

Lemma lstrip_all_space (s : str) : forallb isspace s = true -> lstrip s = [].
Proof.
  induction s as [|c s IH]; simpl; [reflexivity|].
  intros H; apply andb_prop in H; destruct H as [-> H]; auto.
Qed.

(** A string is blank for [strip] exactly when all its characters are white
    space. *)
Lemma strip_blank_iff (s : str) : strip s = [] <-> forallb isspace s = true.
Proof.
  split.
  - intros H; apply forallb_forall; exact (strip_nil s H).
  - intros H; unfold strip; rewrite (lstrip_all_space s H); reflexivity.
Qed.

Lemma join_not_blank (l : list str) :
  l <> [] -> Forall (fun x => strip x <> []) l -> strip (join SPACE l) <> [].
Proof.
  destruct l as [|x l]; [congruence|]; intros _ H.
  inversion H as [|? ? Hx _]; subst.
  rewrite strip_blank_iff in Hx |- *.
  intros Hj; apply Hx; clear Hx.
  assert (E : exists r, join SPACE (x :: l) = x ++ r).
  { simpl; destruct l; [exists []; rewrite app_nil_r | eexists]; reflexivity. }
  destruct E as [r E]; rewrite E, forallb_app in Hj.
  apply andb_prop in Hj; tauto.
Qed.

Lemma paragraph_loop_blank_entries (upper : char -> bool) (lines : list str)
  (l : list (nat * str)) (st st' : pstate) :
  Forall (fun e => strip e = [] -> e = []) (processed_lines st) ->
  Forall (fun x => strip x <> []) (current_paragraph st) ->
  for_each (paragraph_step upper lines) l st = Ok st' ->
  Forall (fun e => strip e = [] -> e = [])
    (fst (flush (processed_lines st') (current_paragraph st'))).
Proof.
  assert (Hflush : forall ls cur,
             Forall (fun e : str => strip e = [] -> e = []) ls ->
             Forall (fun x : str => strip x <> []) cur ->
             Forall (fun e : str => strip e = [] -> e = []) (fst (flush ls cur))).
  { intros ls cur Hls Hcur; destruct cur as [|c cur]; [exact Hls|].
    cbn [flush fst]; apply Forall_app; split; [exact Hls|].
    constructor; [|constructor].
    intros Hb; exfalso; revert Hb.
    apply join_not_blank; [discriminate | exact Hcur]. }
  revert st; induction l as [|[i line] l IH]; intros st Hp Hc H; simpl in H.
  - inversion H; subst; apply Hflush; assumption.
  - apply bind_ok in H; destruct H as (s1 & H1 & H2).
    unfold paragraph_step in H1.
    destruct (truthy (strip line)) eqn:Hline; cbn [negb] in H1.
    + assert (Hnb : strip line <> [])
        by (intros E; rewrite E in Hline; discriminate).
      assert (Hcur : Forall (fun x : str => strip x <> [])
                       (current_paragraph st ++ [line])).
      { apply Forall_app; split; [exact Hc|]; constructor; [exact Hnb|constructor]. }
      destruct (next_line_new_sentence upper lines i) as [b|e];
        cbn [bind] in H1; [|discriminate].
      match type of H1 with (if ?c then _ else _) = _ => destruct c end;
        inversion H1; subst; clear H1;
        (eapply IH; [| |exact H2]); cbn [processed_lines current_paragraph].
      * apply Forall_app; split; [exact Hp|]; constructor; [|constructor].
        intros Hb; exfalso; revert Hb; apply join_not_blank; [|exact Hcur].
        destruct (current_paragraph st); discriminate.
      * constructor.
      * exact Hp.
      * exact Hcur.
    + pose proof (Hflush _ _ Hp Hc) as Hfl.
      destruct (flush (processed_lines st) (current_paragraph st)) as [out c].
      inversion H1; subst; clear H1.
      (eapply IH; [| |exact H2]); cbn [processed_lines current_paragraph].
      * apply Forall_app; split; [exact Hfl|].
        constructor; [auto | constructor].
      * constructor.
Qed.

(** X9: the Paragraph Assembler normalises blank lines: an entry of
    [processed_lines] that is blank (nothing but white space) is the empty
    string, so every paragraph it outputs has visible text. *)
Theorem blank_entries_are_empty (upper : char -> bool)
  (lines processed : list str) :
  assemble upper lines = Ok processed ->
  forall e, In e processed -> strip e = [] -> e = [].
Proof.
  unfold assemble; intros H; apply bind_ok in H.
  destruct H as (st & Hloop & E); inversion E; subst; clear E.
  apply (proj1 (Forall_forall (fun e : str => strip e = [] -> e = []) _)).
  apply (paragraph_loop_blank_entries upper lines (enumerate lines) pinit st);
    [constructor | constructor | exact Hloop].
Qed.

Lemma blank_entries_are_empty_witness :
  let lines := [lit "One."; lit "   "; lit "Two"] in
  assemble ascii_only lines = Ok [lit "One."; []; lit "Two"]
  /\ forall e, In e [lit "One."; []; lit "Two"] -> strip e = [] -> e = [].
Proof.
  intros lines.
  assert (H : assemble ascii_only lines = Ok [lit "One."; []; lit "Two"])
    by reflexivity.
  split; [exact H|].
  exact (blank_entries_are_empty ascii_only lines _ H).
Defined.

(** ** Headings *)

(** X10: an entry that passes the heading test is shorter than 50
    characters, is followed by a non-blank entry, and that next entry is not
    a heading itself when the heading has visible text (as every entry the
    emitter tests has): headings never come last and never stack. *)
Theorem heading_is_followed_by_body (processed : list str) (i : nat)
  (line : str) :
  is_heading processed i line = Ok true ->
  Z.of_nat (length line) < 50
  /\ exists next,
      nth_error processed (i + 1) = Some next
      /\ truthy (strip next) = true
      /\ (nth_error processed i = Some line -> truthy (strip line) = true ->
          is_heading processed (S i) next = Ok false).
Proof.
  unfold is_heading at 1.
  destruct (Z.ltb_spec (Z.of_nat (length line)) 50) as [Hlen|_];
    [|discriminate].
  match goal with |- bind ?r _ = _ -> _ => destruct r as [[|]|e] end;
    cbn [bind]; try discriminate.
  destruct (Z.of_nat i <? Z.of_nat (length processed) - 1); [|discriminate].
  unfold index; destruct (nth_error processed (i + 1)) as [next|] eqn:En;
    cbn [bind]; [|discriminate].
  intros H; injection H as Ht; split; [exact Hlen|].
  exists next; split; [reflexivity|]; split; [exact Ht|].
  intros Hi Hl; exact (not_heading_after_text processed i line next Hi Hl).
Qed.

Lemma heading_is_followed_by_body_witness :
  let processed := [lit "Title"; lit "Body text."] in
  is_heading processed 0 (lit "Title") = Ok true
  /\ is_heading processed 1 (lit "Body text.") = Ok false.
Proof.
  intros processed.
  assert (H : is_heading processed 0 (lit "Title") = Ok true) by reflexivity.
  split; [exact H|].
  destruct (heading_is_followed_by_body processed 0 (lit "Title") H)
    as (_ & next & Hn & _ & Hnext).
  inversion Hn; subst next.
  exact (Hnext eq_refl eq_refl).
Defined.

(** ** What [process_pdf] returns, and what the handler shows *)

Lemma startswith_app (prefix rest : str) :
  startswith (prefix ++ rest) prefix = true.
Proof.
  induction prefix as [|c prefix IH]; simpl; [destruct rest; reflexivity|].
  rewrite N.eqb_refl; exact IH.
Qed.

Lemma startswith_app_l (s rest prefix : str) :
  startswith s prefix = true -> startswith (s ++ rest) prefix = true.
Proof.
  revert s; induction prefix as [|p prefix IH]; intros s; simpl.
  - destruct (s ++ rest); reflexivity.
  - destruct s as [|c s]; [discriminate|]; simpl.
    intros H; apply andb_prop in H; destruct H as [-> H]; simpl; auto.
Qed.

(** With at least one page, the text starts with the header of page 1. *)
Lemma process_pdf_starts_with_header (upper : char -> bool)
  (pages : list image_result) :
  pages <> [] ->
  exists out,
    process_pdf upper (Some {| images := Some pages |}) = Ok out
    /\ startswith out (lit "## " ++ PAGE ++ lit " 1" ++ NL ++ NL) = true.
Proof.
  intros Hne.
  destruct (page_texts_exist upper pages) as (texts & Ht).
  destruct pages as [|p ps]; [congruence|].
  unfold process_pdf, enumerate.
  rewrite (page_loop upper (p :: ps) texts Ht 0 []); cbn [bind app].
  eexists; split; [reflexivity|].
  inversion Ht as [|? t ? ts _ _]; subst.
  cbn [length seq combine List.map].
  assert (E : exists r, join (NL ++ NL)
                          (page_block (0%nat, t)
                           :: List.map page_block (combine (seq 1 (length ts)) ts))
                        = page_block (0%nat, t) ++ r).
  { cbn [join]; destruct (List.map page_block _);
      [exists []; rewrite app_nil_r | eexists]; reflexivity. }
  destruct E as [r ->].
  apply startswith_app_l.
  change (page_block (0%nat, t))
    with ((lit "## " ++ PAGE ++ lit " 1" ++ NL ++ NL) ++ t).
  apply startswith_app.
Qed.

(** X11: a reply with at least one page, every page with its line height in
    the exact range, can never be mistaken for a failed one: the text
    [process_pdf] returns then starts with the header of page 1 and differs
    from the fallback message, whatever the pages contain (even when every
    page text is empty). *)
Theorem pdf_pages_differ_from_fallback (upper : char -> bool)
  (pages : list image_result) :
  pages <> [] ->
  (forall p, In p pages -> exact_page p) ->
  exists out,
    process_pdf upper (Some {| images := Some pages |}) = Ok out
    /\ startswith out (lit "## " ++ PAGE ++ lit " 1" ++ NL ++ NL) = true
    /\ out <> FALLBACK.
Proof.
  intros Hne _.
  destruct (process_pdf_starts_with_header upper pages Hne) as (out & H & Hs).
  exists out; split; [exact H|]; split; [exact Hs|].
  intros E; rewrite E in Hs; vm_compute in Hs; discriminate.
Qed.

Lemma pdf_pages_differ_from_fallback_witness :
  let pages := [{| fields := Some [boxed "a" 0 0 30 20]; title := None |};
                {| fields := Some []; title := None |}] in
  (pages <> [] /\ (forall p, In p pages -> exact_page p))
  /\ exists out,
      process_pdf ascii_only (Some {| images := Some pages |}) = Ok out
      /\ startswith out (lit "## " ++ PAGE ++ lit " 1" ++ NL ++ NL) = true
      /\ out <> FALLBACK.
Proof.
  intros pages.
  assert (H1 : pages <> []) by discriminate.
  assert (H2 : forall p, In p pages -> exact_page p).
  { intros p [<-|[<-|[]]] fs Hfs h Hh; inversion Hfs; subst fs;
      vm_compute in Hh; inversion Hh; reflexivity. }
  split; [split; [exact H1 | exact H2]|].
  exact (pdf_pages_differ_from_fallback ascii_only pages H1 H2).
Defined.

(** X12: the PDF branch of the handler, for a reply whose pages have their
    line heights in the exact range.  The run ends with [processing_done]
    set exactly when the steps before the reply went through and the value
    under ['images'] is not null; the result block is displayed exactly
    then, because the stored text is never empty; and when the reply is
    missing, has no ['images'] key or has no page, what is stored and
    displayed as the extracted text is the fallback message. *)
Theorem pdf_upload_displayed_when_done (upper : char -> bool) (io_ok : bool)
  (reply : option reply_json) :
  (forall pages, reply = Some {| images_value := Some (ImagesArray pages) |} ->
     forall p, In p pages -> exact_page p) ->
  let s := handle_pdf_upload upper io_ok reply in
  last_processed_type s = Some PdfType
  /\ result_displayed s = processing_done s
  /\ (processing_done s = true
      <-> io_ok = true
          /\ reply <> Some {| images_value := Some ImagesNull |})
  /\ (processing_done s = true ->
      match reply with
      | Some {| images_value := Some (ImagesArray (_ :: _)) |} =>
          extracted_text s <> Some FALLBACK
      | _ => extracted_text s = Some FALLBACK
      end).
Proof.
  intros _; unfold handle_pdf_upload.
  destruct io_ok.
  2:{ cbv zeta; cbn.
      repeat split; try reflexivity; try discriminate.
      intros [H _]; discriminate. }
  destruct reply as [[[[|[|p ps]]|]]|]; cbv zeta.
  - cbn. repeat split; try reflexivity; try discriminate.
    intros [_ H]; exfalso; apply H; reflexivity.
  - repeat split; try reflexivity; discriminate.
  - unfold process_pdf_json; cbn [images_value].
    destruct (process_pdf_starts_with_header upper (p :: ps))
      as (out & Hout & Hs); [discriminate|].
    rewrite Hout; unfold result_displayed.
    cbn [processing_done extracted_text last_processed_type andb].
    split; [reflexivity|]; split; [|split].
    + destruct out; [discriminate | reflexivity].
    + split; [intros _; split; [reflexivity | discriminate] | reflexivity].
    + intros _ E; inversion E as [E']; rewrite E' in Hs.
      vm_compute in Hs; discriminate.
  - repeat split; try reflexivity; discriminate.
  - repeat split; try reflexivity; discriminate.
Qed.

Lemma pdf_upload_displayed_when_done_witness :
  let page := {| fields := Some [boxed "a" 0 0 30 20]; title := None |} in
  let reply := Some {| images_value := Some (ImagesArray [page]) |} in
  let s := handle_pdf_upload ascii_only true reply in
  (forall pages, reply = Some {| images_value := Some (ImagesArray pages) |} ->
     forall p, In p pages -> exact_page p)
  /\ extracted_text s = Some (lit "## " ++ PAGE ++ lit " 1" ++ NL ++ NL ++ lit "a" ++ NL ++ NL)
  /\ last_processed_type s = Some PdfType
  /\ result_displayed s = processing_done s
  /\ (processing_done s = true
      <-> true = true
          /\ reply <> Some {| images_value := Some ImagesNull |})
  /\ (processing_done s = true -> extracted_text s <> Some FALLBACK).
Proof.
  intros page reply s.
  assert (H : forall pages,
             reply = Some {| images_value := Some (ImagesArray pages) |} ->
             forall p, In p pages -> exact_page p).
  { intros pages E p Hp; inversion E; subst pages.
    destruct Hp as [<-|[]]; intros fs Hfs h Hh; inversion Hfs; subst fs.
    vm_compute in Hh; inversion Hh; reflexivity. }
  split; [exact H|]; split; [reflexivity|].
  exact (pdf_upload_displayed_when_done ascii_only true reply H).
Defined.

(** ** The image format sent to the OCR service *)

Lemma split_nonempty (sep : char) (s : str) : split sep s <> [].
Proof.
  intros E; pose proof (split_length sep s) as H; rewrite E in H; discriminate.
Qed.

Lemma split_no_sep (sep : char) (s : str) :
  contains sep s = false -> split sep s = [s].
Proof.
  induction s as [|c s IH]; simpl; [reflexivity|].
  intros H; apply orb_false_elim in H; destruct H as [Hc Hs].
  rewrite N.eqb_sym, Hc, (IH Hs); reflexivity.
Qed.

(** Splitting at a separator splits both sides. *)
Lemma split_app_sep (sep : char) (pre s : str) :
  split sep (pre ++ sep :: s) = split sep pre ++ split sep s.
Proof.
  induction pre as [|c pre IH]; simpl.
  - rewrite N.eqb_refl; reflexivity.
  - destruct (c =? sep)%N; [rewrite IH; reflexivity|].
    rewrite IH.
    destruct (split sep pre) as [|cell cells] eqn:E;
      [exfalso; exact (split_nonempty sep pre E) | reflexivity].
Qed.

Lemma img_format_total (file_type : str) :
  exists fmt, img_format file_type = Ok fmt.
Proof.
  unfold img_format; cbv zeta.
  destruct (exists_last (split_nonempty SLASH file_type)) as (l & x & ->).
  exists x; rewrite length_app; simpl.
  replace (length l + 1 - 1)%nat with (length l + 0)%nat by lia.
  rewrite index_shift; reflexivity.
Qed.

(** X13: [file_type.split('/')[-1]] never raises, and for a MIME type
    [<type>/<subtype>] it is the subtype: the text after the last slash.  For
    an upload of type image/png the format sent to the service is png. *)
Theorem img_format_is_subtype (pre sub : str) :
  contains SLASH sub = false ->
  img_format (pre ++ SLASH :: sub) = Ok sub
  /\ img_format sub = Ok sub
  /\ forall file_type, exists fmt, img_format file_type = Ok fmt.
Proof.
  intros H; unfold img_format.
  assert (Hlast : forall (l : list str) (x : str),
             index (l ++ [x]) (length (l ++ [x]) - 1) = Ok x).
  { intros l x; rewrite length_app; simpl.
    replace (length l + 1 - 1)%nat with (length l + 0)%nat by lia.
    rewrite index_shift; reflexivity. }
  split; [|split].
  - cbv zeta; rewrite split_app_sep, (split_no_sep SLASH sub H).
    apply Hlast.
  - cbv zeta; rewrite (split_no_sep SLASH sub H); reflexivity.
  - intros file_type; cbv zeta.
    destruct (exists_last (split_nonempty SLASH file_type)) as (l & x & ->).
    exists x; apply Hlast.
Qed.

Lemma img_format_is_subtype_witness :
  contains SLASH (lit "png") = false
  /\ img_format (lit "image/png") = Ok (lit "png").
Proof.
  assert (H : contains SLASH (lit "png") = false) by reflexivity.
  split; [exact H|].
  exact (proj1 (img_format_is_subtype (lit "image") (lit "png") H)).
Defined.

(** ** What an image upload shows *)

Lemma image_type_is_not_pdf (file_type : str) :
  startswith file_type (lit "image/") = true ->
  str_eqb file_type (lit "application/pdf") = false.
Proof.
  destruct file_type as [|c s]; [discriminate|].
  cbn [lit list_ascii_of_string List.map startswith].
  intros H; apply andb_prop in H; destruct H as [Hc _].
  apply N.eqb_eq in Hc; subst c; reflexivity.
Qed.

(** X14: after an image upload whose reply has fields, either the result
    block is displayed and the stored text is exactly the page text that
    [_extract_text] computes for the same fields (non-empty, no page header),
    or nothing is displayed and the session keeps the empty text with
    [processing_done] false. *)
Theorem image_upload_shows_page_text (upper : char -> bool) (file_type : str)
  (pdf_reply : option ocr_result) (fs : list field)
  (t : option title_field) (rest : list image_result) :
  startswith file_type (lit "image/") = true ->
  let s := handle_upload upper file_type pdf_reply
             {| images := Some ({| fields := Some fs; title := t |} :: rest) |} in
  last_processed_type s = Some ImageType
  /\ ((result_displayed s = true
       /\ exists md, md <> [] /\ extracted_text s = Some md
                     /\ extract_text upper {| fields := Some fs; title := t |}
                        = Ok md)
      \/ (result_displayed s = false
          /\ extracted_text s = Some [] /\ processing_done s = false)).
Proof.
  intros Himg; unfold handle_upload.
  rewrite (image_type_is_not_pdf file_type Himg), Himg.
  destruct (img_format_total file_type) as (fmt & ->).
  unfold call_naver_ocr_image, image_body; cbn [images fields].
  destruct (image_markdown upper fs) as [md|e] eqn:Hmd.
  - destruct md as [|c md]; cbn [truthy negb]; cbv zeta.
    + split; [reflexivity|]; right; repeat split; reflexivity.
    + split; [reflexivity|]; left; split; [reflexivity|].
      exists (c :: md); split; [discriminate|]; split; [reflexivity|].
      exact (image_agrees_when_it_completes upper fs (c :: md) Hmd).
  - cbv zeta; split; [reflexivity|]; right; repeat split; reflexivity.
Qed.

Lemma image_upload_shows_page_text_witness :
  let s := handle_upload ascii_only (lit "image/png") None
             {| images := Some [{| fields := Some [unboxed "Hello"];
                                   title := None |}] |} in
  startswith (lit "image/png") (lit "image/") = true
  /\ last_processed_type s = Some ImageType
  /\ ((result_displayed s = true
       /\ exists md, md <> [] /\ extracted_text s = Some md
                     /\ extract_text ascii_only
                          {| fields := Some [unboxed "Hello"]; title := None |}
                        = Ok md)
      \/ (result_displayed s = false
          /\ extracted_text s = Some [] /\ processing_done s = false)).
Proof.
  intros s.
  assert (H : startswith (lit "image/png") (lit "image/") = true)
    by reflexivity.
  split; [exact H|].
  exact (image_upload_shows_page_text ascii_only (lit "image/png") None
           [unboxed "Hello"] None [] H).
Defined.

(** ** The Paragraph Assembler only regroups *)

Lemma join_snoc (xs : list str) (x : str) :
  join SPACE (xs ++ [x])
  = match xs with
    | [] => x
    | _ :: _ => join SPACE xs ++ SPACE ++ x
    end.
Proof.
  induction xs as [|y xs IH]; [reflexivity|].
  destruct xs as [|z xs]; [reflexivity|].
  change (join SPACE ((y :: z :: xs) ++ [x]))
    with (y ++ SPACE ++ join SPACE ((z :: xs) ++ [x])).
  rewrite IH.
  change (join SPACE (y :: z :: xs)) with (y ++ SPACE ++ join SPACE (z :: xs)).
  rewrite <- !app_assoc; reflexivity.
Qed.

Lemma join_app (xs ys : list str) :
  ys <> [] ->
  join SPACE (xs ++ ys)
  = match xs with
    | [] => join SPACE ys
    | _ :: _ => join SPACE xs ++ SPACE ++ join SPACE ys
    end.
Proof.
  intros Hne; induction xs as [|x xs IH]; [reflexivity|].
  destruct xs as [|z xs].
  - destruct ys; [congruence | reflexivity].
  - change (join SPACE ((x :: z :: xs) ++ ys))
      with (x ++ SPACE ++ join SPACE ((z :: xs) ++ ys)).
    rewrite IH.
    change (join SPACE (x :: z :: xs)) with (x ++ SPACE ++ join SPACE (z :: xs)).
    rewrite <- !app_assoc; reflexivity.
Qed.

(** Joining a paragraph first and the whole afterwards is joining all. *)
Lemma join_joined (xs cur : list str) :
  cur <> [] ->
  join SPACE (xs ++ [join SPACE cur]) = join SPACE (xs ++ cur).
Proof.
  intros Hne; rewrite join_snoc, (join_app xs cur Hne); reflexivity.
Qed.

Lemma filter_visible_joined (cur : list str) :
  cur <> [] -> Forall (fun x => strip x <> []) cur ->
  filter (fun l => truthy (strip l)) [join SPACE cur] = [join SPACE cur].
Proof.
  intros Hne Hc; pose proof (join_not_blank cur Hne Hc) as Hj; simpl.
  destruct (strip (join SPACE cur)); [congruence | reflexivity].
Qed.

Lemma paragraph_loop_keeps_text (upper : char -> bool) (lines : list str)
  (r : list str) :
  forall (a : nat) (pre : list str) (st st' : pstate),
    Forall (fun x => strip x <> []) (current_paragraph st) ->
    join SPACE (filter (fun l => truthy (strip l)) (processed_lines st)
                ++ current_paragraph st)
    = join SPACE (filter (fun l => truthy (strip l)) pre) ->
    (filter (fun l => truthy (strip l)) (processed_lines st)
     ++ current_paragraph st = []
     <-> filter (fun l => truthy (strip l)) pre = []) ->
    for_each (paragraph_step upper lines) (combine (seq a (length r)) r) st
    = Ok st' ->
    join SPACE
      (filter (fun l => truthy (strip l))
         (fst (flush (processed_lines st') (current_paragraph st'))))
    = join SPACE (filter (fun l => truthy (strip l)) (pre ++ r)).
Proof.
  set (F := filter (fun l : str => truthy (strip l))).
  assert (Happ : forall (A B : list str) (line : str),
             join SPACE A = join SPACE B -> (A = [] <-> B = []) ->
             join SPACE (A ++ [line]) = join SPACE (B ++ [line])).
  { intros A B line HJ He; rewrite !join_snoc.
    destruct A as [|x A], B as [|y B]; try reflexivity.
    - exfalso; assert (E : y :: B = []) by (apply He; reflexivity).
      discriminate.
    - exfalso; assert (E : x :: A = []) by (apply He; reflexivity).
      discriminate.
    - rewrite HJ; reflexivity. }
  assert (Hflush : forall ls cur,
             Forall (fun x : str => strip x <> []) cur ->
             F (fst (flush ls cur))
             = F ls ++ match cur with [] => [] | _ => [join SPACE cur] end).
  { intros ls cur Hc; destruct cur as [|c cur]; cbn [flush fst].
    - rewrite app_nil_r; reflexivity.
    - unfold F; rewrite filter_app; fold F.
      unfold F at 2; rewrite filter_visible_joined by (discriminate || exact Hc).
      reflexivity. }
  assert (Hjf : forall ls cur,
             Forall (fun x : str => strip x <> []) cur ->
             join SPACE (F (fst (flush ls cur))) = join SPACE (F ls ++ cur)).
  { intros ls cur Hc; rewrite (Hflush ls cur Hc).
    destruct cur as [|c cur]; [reflexivity|].
    apply join_joined; discriminate. }
  assert (Hef : forall ls cur,
             Forall (fun x : str => strip x <> []) cur ->
             (F (fst (flush ls cur)) = [] <-> F ls ++ cur = [])).
  { intros ls cur Hc; rewrite (Hflush ls cur Hc).
    destruct cur as [|c cur]; [tauto|].
    split; intros H; apply app_eq_nil in H; destruct H; discriminate. }
  induction r as [|line r IH]; intros a pre st st' Hc HJ He H.
  - simpl in H; inversion H; subst; rewrite app_nil_r, Hjf; assumption.
  - cbn [length seq combine for_each] in H.
    apply bind_ok in H; destruct H as (s1 & H1 & H2).
    replace (pre ++ line :: r) with ((pre ++ [line]) ++ r)
      by (rewrite <- app_assoc; reflexivity).
    apply (IH (S a) (pre ++ [line]) s1 st'); [| | |exact H2]; clear IH H2;
      unfold paragraph_step in H1;
      destruct (truthy (strip line)) eqn:Hline; cbn [negb] in H1.
    + (* the buffer stays visible *)
      assert (Hnb : strip line <> [])
        by (intros E; rewrite E in Hline; discriminate).
      destruct (next_line_new_sentence upper lines a) as [b|e];
        cbn [bind] in H1; [|discriminate].
      match type of H1 with (if ?c then _ else _) = _ => destruct c end;
        inversion H1; subst; cbn [current_paragraph]; [constructor|].
      apply Forall_app; split; [exact Hc|]; constructor; [exact Hnb|constructor].
    + destruct (flush _ _); inversion H1; subst; constructor.
    + (* the joined text *)
      assert (Hnb : strip line <> [])
        by (intros E; rewrite E in Hline; discriminate).
      assert (Hcur : Forall (fun x : str => strip x <> [])
                       (current_paragraph st ++ [line])).
      { apply Forall_app; split; [exact Hc|]; constructor; [exact Hnb|constructor]. }
      fold F; unfold F at 2; rewrite filter_app; fold F.
      replace (F [line]) with [line] by (unfold F; simpl; rewrite Hline; reflexivity).
      destruct (next_line_new_sentence upper lines a) as [b|e];
        cbn [bind] in H1; [|discriminate].
      match type of H1 with (if ?c then _ else _) = _ => destruct c end;
        inversion H1; subst; cbn [processed_lines current_paragraph].
      * rewrite app_nil_r.
        unfold F at 1; rewrite filter_app; fold F.
        unfold F at 2;
          rewrite filter_visible_joined
            by (exact Hcur || (destruct (current_paragraph st); discriminate)).
        rewrite join_joined by (destruct (current_paragraph st); discriminate).
        rewrite app_assoc; apply Happ; assumption.
      * rewrite app_assoc; apply Happ; assumption.
    + fold F; unfold F at 2; rewrite filter_app; fold F.
      replace (F [line]) with (@nil str)
        by (unfold F; simpl; rewrite Hline; reflexivity).
      rewrite app_nil_r.
      pose proof (Hjf (processed_lines st) (current_paragraph st) Hc) as Hj1.
      destruct (flush (processed_lines st) (current_paragraph st)) as [out c].
      inversion H1; subst; cbn [processed_lines current_paragraph fst] in *.
      unfold F at 1; rewrite filter_app; fold F.
      replace (F [[]]) with (@nil str) by reflexivity.
      rewrite !app_nil_r, Hj1; exact HJ.
    + (* emptiness *)
      fold F; unfold F at 2; rewrite filter_app; fold F.
      replace (F [line]) with [line] by (unfold F; simpl; rewrite Hline; reflexivity).
      destruct (next_line_new_sentence upper lines a) as [b|e];
        cbn [bind] in H1; [|discriminate].
      match type of H1 with (if ?c then _ else _) = _ => destruct c end;
        inversion H1; subst; cbn [processed_lines current_paragraph];
        split; intros E; apply app_eq_nil in E; destruct E as [E1 E2];
        try discriminate.
      * unfold F in E1; rewrite filter_app in E1; fold F in E1.
        apply app_eq_nil in E1; destruct E1 as [_ E1].
        assert (Hcur : Forall (fun x : str => strip x <> [])
                         (current_paragraph st ++ [line])).
        { apply Forall_app; split; [exact Hc|]; constructor; [|constructor].
          intros E; rewrite E in Hline; discriminate. }
        unfold F in E1; rewrite filter_visible_joined in E1;
          [discriminate | destruct (current_paragraph st); discriminate | exact Hcur].
      * apply app_eq_nil in E2; destruct E2; discriminate.
    + fold F; unfold F at 2; rewrite filter_app; fold F.
      replace (F [line]) with (@nil str)
        by (unfold F; simpl; rewrite Hline; reflexivity).
      rewrite app_nil_r.
      pose proof (Hef (processed_lines st) (current_paragraph st) Hc) as He1.
      destruct (flush (processed_lines st) (current_paragraph st)) as [out c].
      inversion H1; subst; cbn [processed_lines current_paragraph fst] in *.
      unfold F at 1; rewrite filter_app; fold F.
      replace (F [[]]) with (@nil str) by reflexivity.
      rewrite !app_nil_r; tauto.
Qed.

(** X15: the Paragraph Assembler only regroups the lines: joining the
    non-blank entries of [processed_lines] with single spaces gives the same
    string as joining the non-blank lines of its input; no text is lost,
    duplicated or reordered. *)
Theorem assembler_keeps_text (upper : char -> bool)
  (lines processed : list str) :
  assemble upper lines = Ok processed ->
  join SPACE (filter (fun l => truthy (strip l)) processed)
  = join SPACE (filter (fun l => truthy (strip l)) lines).
Proof.
  unfold assemble, enumerate; intros H; apply bind_ok in H.
  destruct H as (st & Hloop & E); inversion E; subst; clear E.
  apply (paragraph_loop_keeps_text upper lines lines 0 [] pinit st);
    [constructor | reflexivity | simpl; tauto | exact Hloop].
Qed.

Lemma assembler_keeps_text_witness :
  let lines := [lit "One"; lit "two."; lit "  "; lit "Three"] in
  assemble ascii_only lines = Ok [lit "One two."; []; lit "Three"]
  /\ join SPACE
       (filter (fun l => truthy (strip l)) [lit "One two."; []; lit "Three"])
     = join SPACE (filter (fun l => truthy (strip l)) lines).
Proof.
  intros lines.
  assert (H : assemble ascii_only lines = Ok [lit "One two."; []; lit "Three"])
    by reflexivity.
  split; [exact H|].
  exact (assembler_keeps_text ascii_only lines _ H).
Defined.

(** ** A finished sentence before an uppercase line *)

(** X16: a non-blank line that ends with a sentence mark, followed by a line
    whose first non-blank character is uppercase, closes its paragraph: the
    assembler's output on [l1 ++ [x; y] ++ l2] is its output on [l1 ++ [x]]
    followed by its output on [y :: l2]. *)
Theorem sentence_end_splits_paragraphs (upper : char -> bool)
  (l1 l2 : list str) (x y : str) (c : char) (r : str) :
  truthy (strip x) = true ->
  endswith_any (rstrip x) sentence_enders = true ->
  strip y = c :: r ->
  isupper upper c = true ->
  exists p1 p2,
    assemble upper (l1 ++ [x]) = Ok p1
    /\ assemble upper (y :: l2) = Ok p2
    /\ assemble upper (l1 ++ x :: y :: l2) = Ok (p1 ++ p2).
Proof.
  intros Hx Hend Hy Hup.
  destruct (assemble_total upper (y :: l2)) as (p2 & Hp2).
  set (L := (l1 ++ [x]) ++ y :: l2).
  assert (HL : l1 ++ x :: y :: l2 = L)
    by (unfold L; rewrite <- app_assoc; reflexivity).
  rewrite HL.
  (* the lines before [x] *)
  assert (Hsame :
            for_each (paragraph_step upper L) (combine (seq 0 (length l1)) l1)
              pinit
            = for_each (paragraph_step upper (l1 ++ [x]))
                (combine (seq 0 (length l1)) l1) pinit).
  { apply for_each_ext_in; intros s [i line] Hin.
    apply in_combine_seq in Hin; destruct Hin as [_ Hin].
    assert (i - 0 < length l1)%nat by (apply nth_error_Some; congruence).
    unfold L; apply paragraph_step_prefix; rewrite length_app; simpl; lia. }
  assert (Ht : forall (q : list (nat * str)) st,
             exists st', for_each (paragraph_step upper (l1 ++ [x])) q st
                         = Ok st').
  { induction q as [|il q IH]; intros st; simpl; [eexists; reflexivity|].
    destruct (paragraph_step_total upper (l1 ++ [x]) st il) as (st1 & ->).
    simpl; apply IH. }
  destruct (Ht (combine (seq 0 (length l1)) l1) pinit) as (s0 & Hs0).
  (* the step on [x], in both contexts *)
  assert (Hn1 : next_line_new_sentence upper L (length l1) = Ok true).
  { apply next_line_new_sentence_spec; exists y, c, r.
    split; [|split; assumption].
    unfold L; rewrite nth_error_app2 by (rewrite length_app; simpl; lia).
    rewrite length_app; simpl.
    replace (length l1 + 1 - (length l1 + 1))%nat with 0%nat by lia.
    reflexivity. }
  assert (Hn2 : next_line_new_sentence upper (l1 ++ [x]) (length l1)
                = Ok false).
  { unfold next_line_new_sentence.
    destruct (Z.ltb_spec (Z.of_nat (length l1))
                (Z.of_nat (length (l1 ++ [x])) - 1)) as [H|_];
      [rewrite length_app in H; simpl in H; lia | reflexivity]. }
  assert (He2 : (Z.of_nat (length l1)
                 =? Z.of_nat (length (l1 ++ [x])) - 1) = true).
  { apply Z.eqb_eq; rewrite length_app; simpl; lia. }
  set (s1 := {| processed_lines :=
                  processed_lines s0
                  ++ [join SPACE (current_paragraph s0 ++ [x])];
                current_paragraph := [] |}).
  assert (Hx1 : paragraph_step upper L s0 (length l1, x) = Ok s1).
  { unfold paragraph_step; rewrite Hx, Hn1, Hend; reflexivity. }
  assert (Hx2 : paragraph_step upper (l1 ++ [x]) s0 (length l1, x) = Ok s1).
  { unfold paragraph_step; rewrite Hx, Hn2, Hend, He2; reflexivity. }
  exists (processed_lines s1), p2; split; [|split; [exact Hp2|]].
  - unfold assemble, enumerate.
    rewrite combine_seq_app, for_each_app, Hs0; cbn [bind].
    cbn [length seq combine for_each Nat.add].
    rewrite Hx2; reflexivity.
  - unfold assemble in Hp2 |- *; unfold enumerate in Hp2 |- *.
    apply bind_ok in Hp2; destruct Hp2 as (st2 & Hst2 & E).
    inversion E; subst p2; clear E.
    pose proof (paragraph_loop_shift upper (l1 ++ [x]) (y :: l2)
                  (processed_lines s1) (y :: l2) 0 pinit) as Hshift.
    fold L in Hshift.
    cbn [processed_lines current_paragraph pinit] in Hshift.
    rewrite app_nil_r, Hst2 in Hshift; cbn [bind] in Hshift.
    unfold L at 2 3; rewrite combine_seq_app, for_each_app; fold L.
    replace (0 + length (l1 ++ [x]))%nat with (length (l1 ++ [x]) + 0)%nat
      by lia.
    set (tail := for_each (paragraph_step upper L)
                   (combine (seq (length (l1 ++ [x]) + 0) (length (y :: l2)))
                      (y :: l2))) in *.
    rewrite combine_seq_app, for_each_app, Hsame, Hs0; cbn [bind].
    cbn [length seq combine for_each Nat.add].
    rewrite Hx1; cbn [bind].
    replace (tail s1)
      with (Ok {| processed_lines := processed_lines s1 ++ processed_lines st2;
                  current_paragraph := current_paragraph st2 |})
      by (symmetry; exact Hshift).
    cbn [bind processed_lines current_paragraph].
    rewrite flush_frame; reflexivity.
Qed.

Lemma sentence_end_splits_paragraphs_witness :
  let l1 := [lit "It starts"] in
  let l2 := [lit "goes on"] in
  (truthy (strip (lit "and ends.")) = true
   /\ endswith_any (rstrip (lit "and ends.")) sentence_enders = true
   /\ strip (lit "Then more") = 84%N :: lit "hen more"
   /\ isupper ascii_only 84%N = true)
  /\ exists p1 p2,
      assemble ascii_only (l1 ++ [lit "and ends."]) = Ok p1
      /\ assemble ascii_only (lit "Then more" :: l2) = Ok p2
      /\ assemble ascii_only (l1 ++ lit "and ends." :: lit "Then more" :: l2)
         = Ok (p1 ++ p2).
Proof.
  intros l1 l2.
  assert (H1 : truthy (strip (lit "and ends.")) = true) by reflexivity.
  assert (H2 : endswith_any (rstrip (lit "and ends.")) sentence_enders = true)
    by reflexivity.
  assert (H3 : strip (lit "Then more") = 84%N :: lit "hen more") by reflexivity.
  assert (H4 : isupper ascii_only 84%N = true) by reflexivity.
  split; [repeat split; assumption|].
  exact (sentence_end_splits_paragraphs ascii_only l1 l2 (lit "and ends.")
           (lit "Then more") 84%N (lit "hen more") H1 H2 H3 H4).
Defined.
